(** * Coaty communication core: event data, topics and container lifecycle

    A shallow embedding of the parts of coaty-js that the specification's
    properties talk about:

    - [Js]: the JavaScript values the event-data classes inspect at run time
      ([undefined], [null], JSON scalars, arrays, objects), with [typeof],
      [Array.isArray] and property reads that throw on [undefined]/[null];
    - [CallReturn]: [CallEventData], [ReturnEventData], [CallEvent]
      (com/call-return.ts);
    - [Topic]: the topic codec exercised by the communication test suite;
    - [Runtime]: the IoC [Container] (runtime/container.ts) as a state
      machine that logs every controller callback it invokes. *)

From Stdlib Require Import List String Ascii Bool ZArith QArith Lia Arith.
From Stdlib Require Import DecimalString DecimalNat Decimal.
Import ListNotations.

(** Split a right-nested conjunction into its conjuncts, leaving each
    conjunct as it is. *)
Ltac splits :=
  match goal with
  | |- _ /\ _ => split; [| splits]
  | _ => idtac
  end.

Local Close Scope Q_scope.
Local Open Scope nat_scope.
Local Open Scope string_scope.
Local Open Scope list_scope.

(* ================================================================== *)
(** ** JavaScript values and completions *)

Module Js.

(** Run-time values.  Numbers are JSON numbers, modelled as rationals; an
    object is its list of own data properties in insertion order. *)
#[warnings="-register-all"]
Inductive JsValue : Type :=
| JUndefined
| JNull
| JBool (b : bool)
| JNumber (q : Q)
| JString (s : string)
| JArray (items : list JsValue)
| JObject (props : list (string * JsValue)).

(** What a thrown JavaScript exception carries, as far as the code here
    distinguishes: every [throw] in the modelled classes is a [TypeError]
    (explicit, or raised by reading a property of [undefined]/[null]) or a
    plain [Error]. *)
Inductive JsError : Type :=
| TypeError (message : string)
| Error (message : string).

(** The outcome of evaluating code that may throw. *)
Inductive Completion (A : Type) : Type :=
| Normal (a : A)
| Throw (e : JsError).
Arguments Normal {A} a.
Arguments Throw {A} e.

Definition bind {A B} (c : Completion A) (k : A -> Completion B) : Completion B :=
  match c with
  | Normal a => k a
  | Throw e => Throw e
  end.

Notation "x <- c ;; k" := (bind c (fun x => k))
  (at level 61, c at next level, right associativity).

Definition succeeds {A} (c : Completion A) : Prop := exists a, c = Normal a.
Definition raises {A} (c : Completion A) : Prop := exists e, c = Throw e.
Definition raisesTypeError {A} (c : Completion A) : Prop :=
  exists m, c = Throw (TypeError m).

(** [v === undefined] and [v !== undefined]. *)
Definition isUndefined (v : JsValue) : bool :=
  match v with JUndefined => true | _ => false end.
Definition isDefined (v : JsValue) : bool := negb (isUndefined v).

(** [typeof v]. *)
Definition typeof (v : JsValue) : string :=
  match v with
  | JUndefined => "undefined"
  | JNull => "object"
  | JBool _ => "boolean"
  | JNumber _ => "number"
  | JString _ => "string"
  | JArray _ => "object"
  | JObject _ => "object"
  end.

(** [Array.isArray(v)]. *)
Definition isArray (v : JsValue) : bool :=
  match v with JArray _ => true | _ => false end.

Fixpoint lookupProp (key : string) (props : list (string * JsValue)) : JsValue :=
  match props with
  | [] => JUndefined
  | (k, v) :: rest => if String.eqb k key then v else lookupProp key rest
  end.

(** The property read [v.key] for the property names the event-data classes
    read ([parameters], [filter], [result], [error], [executionInfo], [code],
    [message], and parameter names): names that are neither [length], nor an
    array index, nor inherited from a prototype, so primitives and arrays
    answer [undefined]; reading from [undefined] or [null] throws. *)
Definition getProp (v : JsValue) (key : string) : Completion JsValue :=
  match v with
  | JUndefined =>
      Throw (TypeError ("Cannot read property '" ++ key ++ "' of undefined"))
  | JNull =>
      Throw (TypeError ("Cannot read property '" ++ key ++ "' of null"))
  | JObject props => Normal (lookupProp key props)
  | _ => Normal JUndefined
  end.

(** A JSON number that is a mathematical integer. *)
Definition isIntegerNumber (v : JsValue) : bool :=
  match v with
  | JNumber q => Z.eqb (Z.rem (Qnum q) (Zpos (Qden q))) 0
  | _ => false
  end.

Definition isString (v : JsValue) : bool :=
  match v with JString _ => true | _ => false end.

(** A by-name mapping: a JSON object that is neither [null] nor an array. *)
Definition isMappingObject (v : JsValue) : bool :=
  match v with JObject _ => true | _ => false end.

End Js.


(* ================================================================== *)
(** ** com/communication-topic: the topic codec

    communication-topic.ts is not part of the sources this development was
    written against; its behaviour is taken from the test suite that pins it
    (test/spec/communication.spec.ts, suite "Communication Topic") and from
    section 4.1 of the specification. *)

Module Topic.
Import Js.

(** Modelled from the spec: the closed set of event kinds of section 3
    (the enum [CommunicationEventType] is declared in communication-event.ts,
    which is missing). *)
Inductive CommunicationEventType : Type :=
| Advertise | Deadvertise | Channel | Discover | Resolve | Query | Retrieve
| Update | Complete | Call | Return | Associate | IoValue | Raw.

Definition allEventTypes : list CommunicationEventType :=
  [Advertise; Deadvertise; Channel; Discover; Resolve; Query; Retrieve;
   Update; Complete; Call; Return; Associate; IoValue; Raw].

(** Modelled from the spec: the event kind name that opens the
    event-type-name level. *)
Definition eventKindName (t : CommunicationEventType) : string :=
  match t with
  | Advertise => "Advertise" | Deadvertise => "Deadvertise"
  | Channel => "Channel" | Discover => "Discover" | Resolve => "Resolve"
  | Query => "Query" | Retrieve => "Retrieve" | Update => "Update"
  | Complete => "Complete" | Call => "Call" | Return => "Return"
  | Associate => "Associate" | IoValue => "IoValue" | Raw => "Raw"
  end.

Definition eventTypeOfKindName (s : string) : option CommunicationEventType :=
  find (fun t => String.eqb (eventKindName t) s) allEventTypes.

Definition PROTOCOL_NAME : string := "coaty".
Definition EMPTY_ASSOCIATED_USER_ID : string := "-".
Definition EVENT_TYPE_FILTER_SEPARATOR : ascii := ":"%char.
Definition READABLE_TOPIC_SEPARATOR : string := "_".
Definition LEVEL_SEPARATOR : ascii := "/"%char.

Definition NUL : ascii := Ascii.zero.

(** Modelled from the spec: the characters [{NUL, #, +, /}] that may not
    occur in a topic level (section 4.1, Validation and Readable mode). *)
Definition isIllegalTopicChar (c : ascii) : bool :=
  Ascii.eqb c NUL || Ascii.eqb c "#"%char || Ascii.eqb c "+"%char
  || Ascii.eqb c "/"%char.

Fixpoint stringMap (f : ascii -> ascii) (s : string) : string :=
  match s with
  | EmptyString => EmptyString
  | String c rest => String (f c) (stringMap f rest)
  end.

Fixpoint stringForall (p : ascii -> bool) (s : string) : bool :=
  match s with
  | EmptyString => true
  | String c rest => p c && stringForall p rest
  end.

(** A name that contains only safe characters. *)
Definition hasOnlySafeChars (s : string) : bool :=
  stringForall (fun c => negb (isIllegalTopicChar c)) s.

(** The string contains one of NUL, [#], [+], [/]. *)
Definition containsIllegalChar (s : string) : Prop :=
  exists c, In c (list_ascii_of_string s) /\
    (c = NUL \/ c = "#"%char \/ c = "+"%char \/ c = "/"%char).

(** A string that can stand as one level of a topic name. *)
Definition isTopicLevel (s : string) : bool :=
  negb (String.eqb s "") && hasOnlySafeChars s.

(** Modelled from the spec: [CommunicationTopic.isValidEventTypeFilter],
    "Operation names, channel identifiers, and object-type filters:
    non-empty; may not contain NUL, #, +, /". *)
Definition isValidEventTypeFilter (filter : string) : bool :=
  isTopicLevel filter.

(** Modelled from the spec: sanitization "replaces every character in
    [{NUL, #, +, /}] with [_]". *)
Definition sanitize (name : string) : string :=
  stringMap (fun c => if isIllegalTopicChar c then "_"%char else c) name.

(** Modelled from the spec: the readable form [<sanitizedName>_<uuid>]. *)
Definition readable (name uuid : string) : string :=
  sanitize name ++ READABLE_TOPIC_SEPARATOR ++ uuid.

(** The unsanitized concatenation, for comparison with [readable]. *)
Definition rawReadable (name uuid : string) : string :=
  name ++ READABLE_TOPIC_SEPARATOR ++ uuid.

Definition isHexDigit (c : ascii) : bool :=
  let n := nat_of_ascii c in
  ((48 <=? n)%nat && (n <=? 57)%nat) || ((97 <=? n)%nat && (n <=? 102)%nat)
  || ((65 <=? n)%nat && (n <=? 70)%nat).

Fixpoint uuidShapeFrom (i : nat) (s : string) : bool :=
  match s with
  | EmptyString => true
  | String c rest =>
      (if (i =? 8)%nat || (i =? 13)%nat || (i =? 18)%nat || (i =? 23)%nat
       then Ascii.eqb c "-"%char else isHexDigit c)
      && uuidShapeFrom (S i) rest
  end.

(** The canonical UUID shape: 36 characters, 8-4-4-4-12 hexadecimal digits. *)
Definition isUuid (s : string) : bool :=
  (String.length s =? 36)%nat && uuidShapeFrom 0 s.

(** Modelled from the spec: [CommunicationTopic.uuidFromLevel], "Decoding
    recovers the trailing UUID by matching the last 36 characters against
    the canonical UUID shape; the leading name portion is informational
    only".  Nothing is recovered from a level without such a tail. *)
Definition uuidFromLevel (level : string) : option string :=
  let n := String.length level in
  let tail := substring (n - 36) 36 level in
  if isUuid tail then Some tail else None.

(** The [User] object, as far as the codec reads it. *)
Record User : Type := mkUser {
  userName : string;
  userObjectId : string
}.

(** The fields of a topic (the getters of [CommunicationTopic]). *)
Record CommunicationTopic : Type := mkTopic {
  associatedUserId : option string;
  sourceObjectId : string;
  eventType : CommunicationEventType;
  eventTypeName : string;
  messageToken : string;
  version : nat
}.

(** [n.toString()] for a non-negative integer. *)
Definition natToString (n : nat) : string :=
  NilZero.string_of_uint (Nat.to_uint n).

(** Strict decimal parse of a non-empty digit string. *)
Definition parseNat (s : string) : option nat :=
  option_map Nat.of_uint (NilZero.uint_of_string s).

(** Modelled from the spec: [CommunicationTopic.getEventTypeName], the event
    kind name "optionally suffixed by [:<filter>]". *)
Definition getEventTypeName (t : CommunicationEventType)
    (eventTypeFilter : option string) : string :=
  match eventTypeFilter with
  | None => eventKindName t
  | Some f => eventKindName t ++ String EVENT_TYPE_FILTER_SEPARATOR f
  end.

(** Per-sender message-token counters: the next counter of every sender
    that has already built a topic. *)
Definition TokenCounters : Type := list (string * nat).

Fixpoint lookupCounter (sender : string) (cs : TokenCounters) : option nat :=
  match cs with
  | [] => None
  | (k, n) :: rest => if String.eqb k sender then Some n else lookupCounter sender rest
  end.

Fixpoint storeCounter (sender : string) (n : nat) (cs : TokenCounters)
  : TokenCounters :=
  match cs with
  | [] => [(sender, n)]
  | (k, m) :: rest =>
      if String.eqb k sender then (k, n) :: rest
      else (k, m) :: storeCounter sender n rest
  end.

(** Modelled from the spec: the token counter convention, "a fresh sender
    uses counter 0 for its first event when an associated user is present,
    else 1.  Subsequent tokens increment." *)
Definition tokenCounter (cs : TokenCounters) (sender : string)
    (associatedUser : option User) : nat :=
  match lookupCounter sender cs with
  | Some n => n
  | None => match associatedUser with Some _ => 0 | None => 1 end
  end.

(** Modelled from the spec: the message token in canonical form
    [<senderObjectId>_<counter>]. *)
Definition canonicalToken (sender : string) (counter : nat) : string :=
  sender ++ "_" ++ natToString counter.

(** Modelled from the spec: [CommunicationTopic.createByLevels].  The user
    level is the readable form of the user in readable mode and its object
    id otherwise; the message token is the sender's next canonical token
    (the test suite passes a UUID as [messageToken] and reads back
    [<senderId>_<counter>], so the argument does not reach the topic).
    Returns the topic and the advanced counters. *)
Definition createByLevels (cs : TokenCounters)
    (associatedUser : option User) (source : string)
    (eventType : CommunicationEventType) (eventTypeFilter : option string)
    (messageToken : string) (protocolVersion : nat) (isReadable : bool)
  : CommunicationTopic * TokenCounters :=
  let counter := tokenCounter cs source associatedUser in
  (mkTopic
     (match associatedUser with
      | None => None
      | Some u => Some (if isReadable
                        then readable (userName u) (userObjectId u)
                        else userObjectId u)
      end)
     source
     eventType
     (getEventTypeName eventType eventTypeFilter)
     (canonicalToken source counter)
     protocolVersion,
   storeCounter source (S counter) cs).

(** [s.split(sep)] for a one-character separator. *)
Fixpoint splitOn (sep : ascii) (s : string) : list string :=
  match s with
  | EmptyString => [EmptyString]
  | String c rest =>
      if Ascii.eqb c sep then EmptyString :: splitOn sep rest
      else match splitOn sep rest with
           | [] => [String c EmptyString]
           | level :: levels => String c level :: levels
           end
  end.

(** The string does not contain the separator. *)
Definition sepFree (sep : ascii) (s : string) : bool :=
  stringForall (fun c => negb (Ascii.eqb c sep)) s.

(** [levels.join("/")]. *)
Definition joinLevels (levels : list string) : string :=
  String.concat (String LEVEL_SEPARATOR EmptyString) levels.

(** Modelled from the spec: [CommunicationTopic.getTopicName], the wire
    format [coaty/<version>/<eventTypeName>/<associatedUserId|->/<sourceId>/<messageToken>];
    as the test suite's destructuring of a split topic shows, the levels
    stand between a leading and a trailing separator. *)
Definition getTopicName (t : CommunicationTopic) : string :=
  joinLevels
    [EmptyString; PROTOCOL_NAME; natToString (version t); eventTypeName t;
     match associatedUserId t with
     | Some u => u
     | None => EMPTY_ASSOCIATED_USER_ID
     end;
     sourceObjectId t; messageToken t; EmptyString].

(** The part of a level before the first separator [sep]. *)
Fixpoint takeUntil (sep : ascii) (s : string) : string :=
  match s with
  | EmptyString => EmptyString
  | String c rest =>
      if Ascii.eqb c sep then EmptyString else String c (takeUntil sep rest)
  end.

Definition InvalidTopic (topicName : string) : JsError :=
  Error ("Communication topic structure invalid: " ++ topicName).

Definition isWildcardOrNul (c : ascii) : bool :=
  Ascii.eqb c NUL || Ascii.eqb c "#"%char || Ascii.eqb c "+"%char.

(** Modelled from the spec: [CommunicationTopic.createByName].  "A decode of
    an ill-structured topic fails with InvalidTopic"; it "rejects: empty
    string, missing levels, wrong protocol name, wildcards in publish,
    embedded NUL".  The kind of the event is read off the event-type-name
    level up to the filter separator; the level [-] stands for no
    associated user. *)
Definition createByName (topicName : string) : Completion CommunicationTopic :=
  match splitOn LEVEL_SEPARATOR topicName with
  | [start; protocolName; versionLevel; eventTypeName; associatedUserId;
     sourceObjectId; messageToken; finish] =>
      if negb (String.eqb start "") || negb (String.eqb finish "")
         || negb (String.eqb protocolName PROTOCOL_NAME)
         || negb (stringForall (fun c => negb (isWildcardOrNul c)) topicName)
         || String.eqb eventTypeName "" || String.eqb associatedUserId ""
         || String.eqb sourceObjectId "" || String.eqb messageToken ""
      then Throw (InvalidTopic topicName)
      else
        match parseNat versionLevel,
              eventTypeOfKindName
                (takeUntil EVENT_TYPE_FILTER_SEPARATOR eventTypeName) with
        | Some v, Some eventType =>
            Normal (mkTopic
                      (if String.eqb associatedUserId EMPTY_ASSOCIATED_USER_ID
                       then None else Some associatedUserId)
                      sourceObjectId eventType eventTypeName messageToken v)
        | _, _ => Throw (InvalidTopic topicName)
        end
  | _ => Throw (InvalidTopic topicName)
  end.

(** A topic whose levels can be written on the wire: every level is a
    topic level, the user level is not the no-user marker, and the
    event-type-name level opens with the name of the topic's event kind. *)
Definition wellFormedTopic (t : CommunicationTopic) : Prop :=
  isTopicLevel (sourceObjectId t) = true
  /\ isTopicLevel (messageToken t) = true
  /\ isTopicLevel (eventTypeName t) = true
  /\ eventTypeOfKindName
       (takeUntil EVENT_TYPE_FILTER_SEPARATOR (eventTypeName t))
     = Some (eventType t)
  /\ match associatedUserId t with
     | Some u => isTopicLevel u = true /\ u <> EMPTY_ASSOCIATED_USER_ID
     | None => True
     end.

(** The fields a topic is built from are well formed: object ids are
    identifiers that fit a topic level (as every UUID does) and differ from
    the no-user marker, and the event-type filter, if any, is valid. *)
Definition validFields (associatedUser : option User) (source : string)
    (eventTypeFilter : option string) : bool :=
  match associatedUser with
  | Some u =>
      isTopicLevel (userObjectId u)
      && negb (String.eqb (userObjectId u) EMPTY_ASSOCIATED_USER_ID)
  | None => true
  end
  && isTopicLevel source
  && match eventTypeFilter with
     | Some f => isValidEventTypeFilter f
     | None => true
     end.

(** The fixtures of the test suite "Communication Topic". *)
Definition fixtureUser : User :=
  mkUser ("User+/#HHO" ++ String NUL "") "0ea293e5-f8be-4a5d-886b-0e231e8234b2".
Definition fixtureSenderId : string := "3d34eb53-2536-4134-b0cd-8c406b94bb80".
Definition fixtureToken : string := "7d6dd7e6-4f3d-4cdf-92f5-3d926a55663d".

(** [topic] and [topicNoUser] of the test suite, built in this order. *)
Definition fixtureTopic : CommunicationTopic * TokenCounters :=
  createByLevels [] (Some fixtureUser) fixtureSenderId Advertise
    (Some "CoatyObject") fixtureToken 1 true.
Definition fixtureTopicNoUser : CommunicationTopic * TokenCounters :=
  createByLevels (snd fixtureTopic) None fixtureSenderId Advertise
    (Some "CoatyObject") fixtureToken 1 true.

(** The source component of an event, as far as the event classes read it. *)
Record Component : Type := mkComponent {
  objectId : string;
  name : string
}.

End Topic.
(* ================================================================== *)
(** ** com/call-return.ts: Call and Return event data *)

Module CallReturn.
Import Js Topic.

(** [ReturnEventData]: the three private fields set by the constructor. *)
Record ReturnEventData : Type := mkReturnEventData {
  _result : JsValue;
  _error : JsValue;
  _executionInfo : JsValue
}.

(** [ReturnEventData._hasValidParameters]; [||] evaluates left to right and
    stops at the first truthy operand, so [code] is read only when
    [typeof error] is ["object"]. *)
Definition Return_hasValidParameters (d : ReturnEventData) : Completion bool :=
  if isUndefined (_result d) && isUndefined (_error d) then Normal false
  else if isDefined (_result d) && isDefined (_error d) then Normal false
  else if isDefined (_error d) then
    if negb (String.eqb (typeof (_error d)) "object") then Normal false
    else
      code <- getProp (_error d) "code" ;;
      if isUndefined code then Normal false
      else
        message <- getProp (_error d) "message" ;;
        if isUndefined message then Normal false else Normal true
  else Normal true.

Definition Return_invalid : JsError :=
  TypeError "in ReturnEventData: arguments not valid".

(** [new ReturnEventData(result, error, executionInfo)]. *)
Definition newReturnEventData (result error executionInfo : JsValue)
  : Completion ReturnEventData :=
  let this := mkReturnEventData result error executionInfo in
  valid <- Return_hasValidParameters this ;;
  if negb valid then Throw Return_invalid else Normal this.

(** [ReturnEventData.prototype.toJsonObject]. *)
Definition Return_toJsonObject (d : ReturnEventData) : JsValue :=
  JObject [("result", _result d); ("error", _error d);
           ("executionInfo", _executionInfo d)].

(** [ReturnEventData.createFrom(eventData)]: the three property reads are
    the constructor call's arguments, evaluated left to right. *)
Definition Return_createFrom (eventData : JsValue) : Completion ReturnEventData :=
  result <- getProp eventData "result" ;;
  error <- getProp eventData "error" ;;
  executionInfo <- getProp eventData "executionInfo" ;;
  newReturnEventData result error executionInfo.

(** [ReturnEventData.isError]. *)
Definition isError (d : ReturnEventData) : bool := isDefined (_error d).

Section WithModel.

(** [isContextFilterValid] (model/object-filter) and
    [ObjectMatcher.matchesFilter] (model/object-matcher) are imported by
    call-return.ts; both return a boolean. *)
Variable isContextFilterValid : JsValue -> bool.
Variable ObjectMatcher_matchesFilter : JsValue -> JsValue -> bool.

(** [CallEventData]: the two private fields set by the constructor. *)
Record CallEventData : Type := mkCallEventData {
  _parameters : JsValue;
  _filter : JsValue
}.

(** [CallEventData._hasValidParameters]. *)
Definition Call_hasValidParameters (d : CallEventData) : bool :=
  (isUndefined (_parameters d) || isArray (_parameters d)
   || String.eqb (typeof (_parameters d)) "object")
  && isContextFilterValid (_filter d).

Definition Call_invalid : JsError :=
  TypeError "in CallEventData: arguments not valid".

(** [new CallEventData(parameters, filter)]. *)
Definition newCallEventData (parameters filter : JsValue)
  : Completion CallEventData :=
  let this := mkCallEventData parameters filter in
  if negb (Call_hasValidParameters this) then Throw Call_invalid
  else Normal this.

(** [CallEventData.prototype.getParameterByIndex(index)], for an index that
    is a non-negative integer. *)
Definition getParameterByIndex (d : CallEventData) (index : nat) : JsValue :=
  match _parameters d with
  | JArray items => nth index items JUndefined
  | _ => JUndefined
  end.

(** [CallEventData.prototype.getParameterByName(name)]. *)
Definition getParameterByName (d : CallEventData) (name : string)
  : Completion JsValue :=
  if negb (String.eqb (typeof (_parameters d)) "object") then Normal JUndefined
  else getProp (_parameters d) name.

(** [CallEventData.prototype.toJsonObject]. *)
Definition Call_toJsonObject (d : CallEventData) : JsValue :=
  JObject [("parameters", _parameters d); ("filter", _filter d)].

(** [CallEventData.createFrom(eventData)]. *)
Definition Call_createFrom (eventData : JsValue) : Completion CallEventData :=
  parameters <- getProp eventData "parameters" ;;
  filter <- getProp eventData "filter" ;;
  newCallEventData parameters filter.

(** [CallEventData.prototype.matchesFilter(context)]; an omitted argument is
    [undefined]. *)
Definition matchesFilter (d : CallEventData) (context : JsValue) : bool :=
  if isDefined (_filter d) && isDefined context
  then ObjectMatcher_matchesFilter context (_filter d)
  else true.

(** [CallEvent]: the event source and data kept by the base class
    [CommunicationEvent], and the operation name. *)
Record CallEvent : Type := mkCallEvent {
  call_eventSource : Component;
  _operation : string;
  call_eventData : CallEventData
}.

Definition CallEvent_invalid : JsError :=
  TypeError "in CallEvent: argument 'operation' is not a valid operation name".

(** [new CallEvent(eventSource, operation, eventData)]; the base constructor
    only stores its arguments. *)
Definition newCallEvent (eventSource : Component) (operation : string)
    (eventData : CallEventData) : Completion CallEvent :=
  if negb (isValidEventTypeFilter operation) then Throw CallEvent_invalid
  else Normal (mkCallEvent eventSource operation eventData).

(** [CallEvent.with(eventSource, operation, parameters, filter)]: the event
    data is constructed first, as an argument of the constructor call. *)
Definition CallEvent_with (eventSource : Component) (operation : string)
    (parameters filter : JsValue) : Completion CallEvent :=
  eventData <- newCallEventData parameters filter ;;
  newCallEvent eventSource operation eventData.

(** [CallEvent.prototype.eventTypeFilter] and [operation]. *)
Definition eventTypeFilter (e : CallEvent) : string := _operation e.
Definition operation (e : CallEvent) : string := _operation e.

End WithModel.

(** Modelled from the spec: [ChannelEvent] (channel-event.ts is missing),
    "one or more Objects plus a channel identifier (validated as in
    section 4.1)"; an illegal channel identifier is rejected at construction,
    like an illegal operation name of a Call event.  The payload [D] is event
    data that has already been constructed. *)
Record ChannelEvent (D : Type) : Type := mkChannelEvent {
  channel_eventSource : Component;
  _channelId : string;
  channel_eventData : D
}.
Arguments mkChannelEvent {D}.

Definition ChannelEvent_invalid : JsError :=
  TypeError "in ChannelEvent: argument 'channelId' is not a valid channel identifier".

Definition newChannelEvent {D : Type} (eventSource : Component)
    (channelId : string) (eventData : D) : Completion (ChannelEvent D) :=
  if negb (isValidEventTypeFilter channelId) then Throw ChannelEvent_invalid
  else Normal (mkChannelEvent eventSource channelId eventData).

End CallReturn.

(* ================================================================== *)
(** ** runtime/container.ts: the IoC container

    Controllers and the communication manager are collaborators of the
    container: a controller is represented by the identity of its instance
    and every callback the container invokes on it is appended to a log. *)

Module Runtime.
Import Js.

(** [OperatingState] (declared in com/communication-manager); the container
    names [Starting], [Started] and [Stopping], the others fall into the
    [default] branch of its dispatch. *)
Inductive OperatingState : Type :=
| Initial | Starting | Started | Stopping | Stopped.

(** The identity of a controller instance: the index of its allocation.
    Constructors and lifecycle methods of controllers are taken to return
    normally and not to call back into the container. *)
Definition CtrlId : Type := nat.

(** A controller class ([IControllerStatic]), by identity. *)
Definition ControllerType : Type := nat.

(** The lifecycle methods of [IController] the container calls. *)
Inductive Callback : Type :=
| OnInit
| OnContainerResolved
| OnCommunicationManagerStarting
| OnCommunicationManagerStopping
| OnDispose.

(** What the container calls on its collaborators, in order of invocation. *)
Inductive Call : Type :=
| ControllerCall (ctrl : CtrlId) (cb : Callback)
| ManagerStart
| ManagerDispose.

(** [Components.controllers]: the classes under their names, in
    [Object.keys] order; a falsy value is [None]. *)
Record Components : Type := mkComponents {
  controllers : option (list (string * option ControllerType))
}.

(** [Configuration], as far as the container reads it itself:
    [config.communication.shouldAutoStart]. *)
Record Configuration : Type := mkConfiguration {
  shouldAutoStart : bool
}.

(** [Map<string, [IController, IControllerStatic]>] in insertion order. *)
Definition ControllerMap : Type := list (string * (CtrlId * ControllerType)).

Fixpoint mapGet (key : string) (m : ControllerMap)
  : option (CtrlId * ControllerType) :=
  match m with
  | [] => None
  | (k, v) :: rest => if String.eqb k key then Some v else mapGet key rest
  end.

(** [Map.prototype.set]: an existing key keeps its position. *)
Fixpoint mapSet (key : string) (v : CtrlId * ControllerType)
    (m : ControllerMap) : ControllerMap :=
  match m with
  | [] => [(key, v)]
  | (k, w) :: rest =>
      if String.eqb k key then (k, v) :: rest
      else (k, w) :: mapSet key v rest
  end.

(** The controller instances of a map, in [forEach] order. *)
Definition instances (m : ControllerMap) : list CtrlId :=
  map (fun entry => fst (snd entry)) m.

(** The private state of a [Container], the current operating state of its
    communication manager, the allocation counter and the call log.
    [_controllers] is [None] once it has been set to [undefined];
    [_subscribed] tells whether [_operatingStateSubscription] is live. *)
Record Container : Type := mkContainer {
  _controllers : option ControllerMap;
  _isShutdown : bool;
  _subscribed : bool;
  managerState : OperatingState;
  nextInstance : nat;
  calls : list Call
}.

Definition logCalls (cs : list Call) (c : Container) : Container :=
  mkContainer (_controllers c) (_isShutdown c) (_subscribed c)
    (managerState c) (nextInstance c) (calls c ++ cs).

(** [Container._dispatchOperatingState(state, ctrl)]. *)
Definition _dispatchOperatingState (state : OperatingState) (ctrl : CtrlId)
  : list Call :=
  match state with
  | Starting => [ControllerCall ctrl OnCommunicationManagerStarting]
  | Stopping => [ControllerCall ctrl OnCommunicationManagerStopping]
  | _ => []
  end.

(** The observer installed by [_resolveComponents]:
    [state => this._controllers && this._controllers.forEach(...)]. *)
Definition operatingStateObserver (state : OperatingState) (c : Container)
  : list Call :=
  match _controllers c with
  | Some m => flat_map (_dispatchOperatingState state) (instances m)
  | None => []
  end.

(** The communication manager moves to [state] and notifies the
    container's observer while the subscription is live. *)
Definition managerEmits (state : OperatingState) (c : Container) : Container :=
  let c' := mkContainer (_controllers c) (_isShutdown c) (_subscribed c)
              state (nextInstance c) (calls c) in
  if _subscribed c then logCalls (operatingStateObserver state c') c' else c'.

Definition managerEmitsAll (states : list OperatingState) (c : Container)
  : Container :=
  fold_left (fun acc s => managerEmits s acc) states c.

Definition undefinedControllers : JsError :=
  TypeError "Cannot read property 'set' of undefined".

(** [Container._resolveController(controllerName, controllerType, ...)]:
    returns the new controller, or [None] for [undefined]. *)
Definition _resolveController (controllerName : string)
    (controllerType : option ControllerType) (c : Container)
  : Completion (Container * option CtrlId) :=
  match controllerType with
  | Some ty =>
      if String.eqb controllerName "" then Normal (c, None)
      else
        let ctrl := nextInstance c in
        match _controllers c with
        | None => Throw undefinedControllers
        | Some m =>
            Normal
              (mkContainer (Some (mapSet controllerName (ctrl, ty) m))
                 (_isShutdown c) (_subscribed c) (managerState c)
                 (S ctrl) (calls c ++ [ControllerCall ctrl OnInit]),
               Some ctrl)
        end
  | None => Normal (c, None)
  end.

Fixpoint resolveAll (entries : list (string * option ControllerType))
    (c : Container) : Completion Container :=
  match entries with
  | [] => Normal c
  | (controllerName, controllerType) :: rest =>
      r <- _resolveController controllerName controllerType c ;;
      resolveAll rest (fst r)
  end.

Section WithManager.

(** The states the communication manager runs through, synchronously, inside
    [start()] and inside [onDispose()], given its current state. *)
Variable startEmits : OperatingState -> list OperatingState.
Variable disposeEmits : OperatingState -> list OperatingState.

(** [new Container()]. *)
Definition newContainer : Container :=
  mkContainer (Some []) false false Initial 0 [].

(** [Container._resolveComponents(components, config)].  Subscribing to
    [observeOperatingState()] delivers the manager's current state at once. *)
Definition _resolveComponents (components : Components)
    (config : option Configuration) (c : Container) : Completion Container :=
  match config with
  | None => Throw (Error "Container: Configuration is not defined")
  | Some cfg =>
      c1 <- match controllers components with
            | Some entries => resolveAll entries c
            | None => Normal c
            end ;;
      let c2 :=
        match _controllers c1 with
        | Some m =>
            logCalls
              (map (fun ctrl => ControllerCall ctrl OnContainerResolved)
                   (instances m)) c1
        | None => c1
        end in
      let c3 :=
        mkContainer (_controllers c2) (_isShutdown c2) true
          (managerState c2) (nextInstance c2) (calls c2) in
      let c4 := logCalls (operatingStateObserver (managerState c3) c3) c3 in
      if shouldAutoStart cfg
      then Normal (managerEmitsAll (startEmits (managerState c4))
                     (logCalls [ManagerStart] c4))
      else Normal c4
  end.

(** [Container.resolve(components, configuration, configTransformer)]. *)
Definition resolve (components : option Components)
    (configuration : option Configuration)
    (configTransformer :
       option (option Configuration -> option Configuration))
  : Completion Container :=
  let configuration :=
    match configTransformer with
    | Some f => f configuration
    | None => configuration
    end in
  _resolveComponents
    (match components with Some cs => cs | None => mkComponents None end)
    configuration newContainer.

(** [Container.prototype.registerController(controllerName, controllerType,
    config)].  The subscription made for the new controller receives the
    manager's current state and is dropped at once. *)
Definition registerController (controllerName : string)
    (controllerType : option ControllerType) (c : Container)
  : Completion (Container * option CtrlId) :=
  if _isShutdown c then Normal (c, None)
  else
    r <- _resolveController controllerName controllerType c ;;
    match snd r with
    | Some ctrl =>
        let c1 := logCalls [ControllerCall ctrl OnContainerResolved] (fst r) in
        let opState := managerState c1 in
        let c2 :=
          match opState with
          | Started | Starting =>
              logCalls (_dispatchOperatingState Starting ctrl) c1
          | _ => c1
          end in
        Normal (c2, Some ctrl)
    | None => Normal (fst r, None)
    end.

(** [Container._releaseComponents()]. *)
Definition _releaseComponents (c : Container) : Completion Container :=
  let c1 := managerEmitsAll (disposeEmits (managerState c))
              (logCalls [ManagerDispose] c) in
  match _controllers c1 with
  | None => Throw (TypeError "Cannot read property 'forEach' of undefined")
  | Some m =>
      let c2 := logCalls (map (fun ctrl => ControllerCall ctrl OnDispose)
                            (instances m)) c1 in
      Normal (mkContainer None (_isShutdown c2) false (managerState c2)
                (nextInstance c2) (calls c2))
  end.

(** [Container.prototype.shutdown()]. *)
Definition shutdown (c : Container) : Completion Container :=
  if _isShutdown c then Normal c
  else
    _releaseComponents
      (mkContainer (_controllers c) true (_subscribed c) (managerState c)
         (nextInstance c) (calls c)).

(** [Container.prototype.getController(controllerName)]:
    [this._controllers && this._controllers.get(controllerName)[0]];
    [None] is the result [undefined]. *)
Definition getController (c : Container) (controllerName : string)
  : Completion (option CtrlId) :=
  match _controllers c with
  | None => Normal None
  | Some m =>
      match mapGet controllerName m with
      | Some entry => Normal (Some (fst entry))
      | None => Throw (TypeError "Cannot read property '0' of undefined")
      end
  end.

(** What can happen to a resolved container: a call of one of its public
    methods, or a state change of its communication manager. *)
Inductive Op : Type :=
| RegisterController (controllerName : string)
    (controllerType : option ControllerType)
| ManagerEmits (state : OperatingState)
| Shutdown.

Definition step (op : Op) (c : Container) : Completion Container :=
  match op with
  | RegisterController controllerName controllerType =>
      r <- registerController controllerName controllerType c ;;
      Normal (fst r)
  | ManagerEmits state => Normal (managerEmits state c)
  | Shutdown => shutdown c
  end.

Fixpoint run (ops : list Op) (c : Container) : Completion Container :=
  match ops with
  | [] => Normal c
  | op :: rest => c' <- step op c ;; run rest c'
  end.

End WithManager.

(** Modelled from the spec: the communication manager's [start()] and
    [onDispose()] (communication-manager.ts is missing), "start() in
    {Initial, Offline}: transition to Starting" and "stop() in {Starting,
    Online}: -> Stopping; ... -> Offline", with "shutdown() = stop() then
    irreversible". *)
Definition specStartEmits (s : OperatingState) : list OperatingState :=
  match s with
  | Initial | Stopped => [Starting]
  | _ => []
  end.

Definition specDisposeEmits (s : OperatingState) : list OperatingState :=
  match s with
  | Starting | Started => [Stopping; Stopped]
  | _ => []
  end.

(** The callbacks invoked on one controller instance, in order. *)
Fixpoint callbacksOf (ctrl : CtrlId) (log : list Call) : list Callback :=
  match log with
  | [] => []
  | ControllerCall i cb :: rest =>
      if Nat.eqb i ctrl then cb :: callbacksOf ctrl rest
      else callbacksOf ctrl rest
  | _ :: rest => callbacksOf ctrl rest
  end.

(** The life-order of a controller as an automaton over its callbacks. *)
Inductive Phase : Type :=
| Fresh | Initialised | Resolved | Disposed.

Definition phaseStep (p : Phase) (cb : Callback) : option Phase :=
  match p, cb with
  | Fresh, OnInit => Some Initialised
  | Initialised, OnContainerResolved => Some Resolved
  | Resolved, OnCommunicationManagerStarting => Some Resolved
  | Resolved, OnCommunicationManagerStopping => Some Resolved
  | Resolved, OnDispose => Some Disposed
  | _, _ => None
  end.

Fixpoint phaseAfter (p : Phase) (cbs : list Callback) : option Phase :=
  match cbs with
  | [] => Some p
  | cb :: rest =>
      match phaseStep p cb with
      | Some p' => phaseAfter p' rest
      | None => None
      end
  end.

(** A callback sequence respects the life-order: [onInit], then
    [onContainerResolved], then operating-state notifications, then
    [onDispose], after which nothing follows. *)
Definition inLifeOrder (cbs : list Callback) : bool :=
  match phaseAfter Fresh cbs with Some _ => true | None => false end.

(** The notifications a list of operating states produces on a controller. *)
Definition notifications (states : list OperatingState) : list Callback :=
  flat_map (fun s => match s with
                     | Starting => [OnCommunicationManagerStarting]
                     | Stopping => [OnCommunicationManagerStopping]
                     | _ => []
                     end) states.

(** Every [onDispose] of a controller comes after the communication
    manager's [onDispose]; [seen] tells whether the latter has been logged. *)
Fixpoint disposesAfterManager (seen : bool) (log : list Call) : bool :=
  match log with
  | [] => true
  | ManagerDispose :: rest => disposesAfterManager true rest
  | ControllerCall _ OnDispose :: rest =>
      seen && disposesAfterManager seen rest
  | _ :: rest => disposesAfterManager seen rest
  end.

(** Calls other than an [onDispose], of the manager or of a controller. *)
Definition quietCall (call : Call) : bool :=
  match call with
  | ManagerDispose => false
  | ControllerCall _ OnDispose => false
  | _ => true
  end.

(** The invariant of a container that has not been shut down, while all
    controllers of its map are in phase [p]: the instances of the map are
    distinct, were allocated by this container and have reached [p]; every
    instance ever created is in life-order; instances not yet allocated have
    not been called; nothing has been disposed. *)
Definition Ready (p : Phase) (c : Container) : Prop :=
  _isShutdown c = false
  /\ (exists m, _controllers c = Some m /\ NoDup (instances m) /\
       forall ctrl, In ctrl (instances m) ->
         ctrl < nextInstance c /\
         phaseAfter Fresh (callbacksOf ctrl (calls c)) = Some p)
  /\ (forall ctrl, inLifeOrder (callbacksOf ctrl (calls c)) = true)
  /\ (forall ctrl, nextInstance c <= ctrl -> callbacksOf ctrl (calls c) = [])
  /\ forallb quietCall (calls c) = true.

(** The state of a container after [shutdown()]. *)
Definition Released (c : Container) : Prop :=
  _isShutdown c = true /\ _subscribed c = false /\ _controllers c = None.

(** What the life-order claims of a log: every controller instance is in
    life-order and is disposed only after the communication manager. *)
Definition LifeOrdered (log : list Call) : Prop :=
  (forall ctrl, inLifeOrder (callbacksOf ctrl log) = true)
  /\ disposesAfterManager false log = true.

(** The invariant of every container [resolve] returns, under every later
    operation: it is live with all controllers resolved and the
    operating-state subscription in place, or it has been released and its
    log is in life-order. *)
Definition Invariant (c : Container) : Prop :=
  (Ready Resolved c /\ _subscribed c = true)
  \/ (Released c /\ LifeOrdered (calls c)).

(** All controllers of the map [m] have received exactly [cbs]. *)
Definition Uniform (cbs : list Callback) (m : ControllerMap) (c : Container)
  : Prop :=
  _controllers c = Some m /\
  forall ctrl, In ctrl (instances m) -> callbacksOf ctrl (calls c) = cbs.

(** The last state of a list of emitted states, [s] if there is none. *)
Definition lastState (states : list OperatingState) (s : OperatingState)
  : OperatingState := last states s.

(** Fixtures after the test suite: the components and configuration of its
    second container, and the container [resolve] returns for them when the
    communication manager behaves as the specification says. *)
Definition fixtureComponents : Components :=
  mkComponents (Some [("MockObjectController", Some 0);
                      ("MockOperationsExecutionController", Some 1)]).
Definition fixtureConfiguration : Configuration := mkConfiguration true.
Definition fixtureContainer : Container :=
  mkContainer
    (Some [("MockObjectController", (0, 0));
           ("MockOperationsExecutionController", (1, 1))])
    false true Starting 2
    [ControllerCall 0 OnInit; ControllerCall 1 OnInit;
     ControllerCall 0 OnContainerResolved; ControllerCall 1 OnContainerResolved;
     ManagerStart;
     ControllerCall 0 OnCommunicationManagerStarting;
     ControllerCall 1 OnCommunicationManagerStarting].

(** The entry registered under a name, if the container still has its map. *)
Definition registered (c : Container) (controllerName : string)
  : option (CtrlId * ControllerType) :=
  match _controllers c with
  | Some m => mapGet controllerName m
  | None => None
  end.

(** The calls the container makes when every controller of [ctrls] is
    notified of each state of [states], state by state. *)
Definition dispatchAll (states : list OperatingState) (ctrls : list CtrlId)
  : list Call :=
  flat_map (fun s => flat_map (_dispatchOperatingState s) ctrls) states.

End Runtime.

(* ================================================================== *)
(** ** com/call-return.ts: the Return event and its factories *)

Module ReturnEvents.
Import Js Topic CallReturn.

(** [RemoteCallErrorCode.InvalidParameters] and
    [RemoteCallErrorMessage.InvalidParameters]. *)
Definition InvalidParameters_code : JsValue := JNumber (-32602 # 1).
Definition InvalidParameters_message : JsValue := JString "Invalid params".

(** [ReturnEvent]: the event source and data kept by the base class
    [CommunicationEvent]; the class has no constructor of its own. *)
Record ReturnEvent : Type := mkReturnEvent {
  return_eventSource : Component;
  return_eventData : ReturnEventData
}.

(** [ReturnEvent.withResult(eventSource, result, executionInfo)]: the event
    data is constructed first, as an argument of the constructor call. *)
Definition ReturnEvent_withResult (eventSource : Component)
    (result executionInfo : JsValue) : Completion ReturnEvent :=
  eventData <- newReturnEventData result JUndefined executionInfo ;;
  Normal (mkReturnEvent eventSource eventData).

(** [ReturnEvent.withError(eventSource, code, message, executionInfo)]; the
    error is the object literal [{ code, message }]. *)
Definition ReturnEvent_withError (eventSource : Component)
    (code message executionInfo : JsValue) : Completion ReturnEvent :=
  eventData <- newReturnEventData JUndefined
                 (JObject [("code", code); ("message", message)])
                 executionInfo ;;
  Normal (mkReturnEvent eventSource eventData).

(** The getters [result], [error] and [executionInfo] of
    [ReturnEventData]. *)
Definition result (d : ReturnEventData) : JsValue := _result d.
Definition error (d : ReturnEventData) : JsValue := _error d.
Definition executionInfo (d : ReturnEventData) : JsValue := _executionInfo d.

(** The getters [parameters] and [filter] of [CallEventData]. *)
Definition parameters (d : CallEventData) : JsValue := _parameters d.
Definition filter (d : CallEventData) : JsValue := _filter d.

(** The property names every object inherits from [Object.prototype]; a
    read of one of them answers with the inherited member where the object
    has no property of its own of that name, which [getProp] leaves out. *)
Definition objectPrototypeNames : list string :=
  ["constructor"; "__proto__"; "hasOwnProperty"; "isPrototypeOf";
   "propertyIsEnumerable"; "toLocaleString"; "toString"; "valueOf";
   "__defineGetter__"; "__defineSetter__"; "__lookupGetter__";
   "__lookupSetter__"].

End ReturnEvents.

(* ================================================================== *)
(** ** runtime/container.ts: enumeration and asynchronous resolution *)

Module ContainerApi.
Import Js Runtime.

(** [Container.prototype.mapControllers(callback)]: one result for each
    entry of the map, in [forEach] order; nothing once the map is gone.  The
    callback is taken to return normally. *)
Definition mapControllers {T : Type}
    (callback : string -> ControllerType -> CtrlId -> T) (c : Container)
  : list T :=
  match _controllers c with
  | Some m =>
      map (fun entry => callback (fst entry) (snd (snd entry)) (fst (snd entry)))
        m
  | None => []
  end.

(** The names under which controllers are registered, in map order. *)
Definition keys (m : ControllerMap) : list string := map fst m.

(** An entry of [Components.controllers] that [_resolveController] acts on:
    a non-empty name with a class. *)
Definition usable (entry : string * option ControllerType) : bool :=
  negb (String.eqb (fst entry) "")
  && match snd entry with Some _ => true | None => false end.

(** How a promise ends up: fulfilled with a value, rejected with a reason,
    or never settled. *)
Inductive Settlement (A R : Type) : Type :=
| Fulfilled (a : A)
| Rejected (reason : R)
| Pending.
Arguments Fulfilled {A R} a.
Arguments Rejected {A R} reason.
Arguments Pending {A R}.

Section WithManager.

Variable startEmits : OperatingState -> list OperatingState.

(** [Container.resolveAsync(components, configuration, configTransformer)].
    The returned promise is settled only by the calls of [resolve] and
    [reject] inside the two callbacks passed to [configuration.then]; an
    exception thrown by [Container.resolve] inside the first callback
    rejects the promise that [then] returns, which is dropped, and leaves
    the returned promise unsettled.  The rejection reason of the
    configuration promise is given by its string conversion. *)
Definition resolveAsync (components : option Components)
    (configuration : Settlement (option Configuration) string)
    (configTransformer :
       option (option Configuration -> option Configuration))
  : Settlement Container JsError :=
  match configuration with
  | Fulfilled config =>
      match resolve startEmits components config configTransformer with
      | Normal container => Fulfilled container
      | Throw _ => Pending
      end
  | Rejected reason =>
      Rejected (Error ("Couldn't fetch async configuration: " ++ reason))
  | Pending => Pending
  end.

Variable disposeEmits : OperatingState -> list OperatingState.

(** The containers a program can hold: what [Container.resolve] returned,
    after any sequence of later operations. *)
Definition Reachable (c : Container) : Prop :=
  exists components configuration configTransformer ops c0,
    resolve startEmits components configuration configTransformer = Normal c0
    /\ run disposeEmits ops c0 = Normal c.

End WithManager.

(** The map [_resolveComponents] builds from the entries of
    [Components.controllers] when their names are distinct: the usable
    entries in order, with instances allocated from [next] on. *)
Fixpoint resolvedMap (next : nat)
    (entries : list (string * option ControllerType)) : ControllerMap :=
  match entries with
  | [] => []
  | (controllerName, controllerType) :: rest =>
      match controllerType with
      | Some ty =>
          if String.eqb controllerName "" then resolvedMap next rest
          else (controllerName, (next, ty)) :: resolvedMap (S next) rest
      | None => resolvedMap next rest
      end
  end.

(** The fixture container of [Runtime] after [shutdown()], and after a
    second controller class has been registered under a name that is
    taken, both with a communication manager that behaves as specified. *)
Definition fixtureReleased : Container :=
  mkContainer None true false Stopped 2
    (calls fixtureContainer
     ++ [ManagerDispose;
         ControllerCall 0 OnCommunicationManagerStopping;
         ControllerCall 1 OnCommunicationManagerStopping;
         ControllerCall 0 OnDispose; ControllerCall 1 OnDispose]).
Definition fixtureReplaced : Container :=
  mkContainer
    (Some [("MockObjectController", (2, 7));
           ("MockOperationsExecutionController", (1, 1))])
    false true Starting 3
    (calls fixtureContainer
     ++ [ControllerCall 2 OnInit; ControllerCall 2 OnContainerResolved;
         ControllerCall 2 OnCommunicationManagerStarting]).

(** The calls [registerController] makes on a new controller to catch up
    with a communication manager in state [state]. *)
Definition catchUp (state : OperatingState) (ctrl : CtrlId) : list Call :=
  match state with
  | Started | Starting => _dispatchOperatingState Starting ctrl
  | _ => []
  end.

(** How often a call occurs in a log. *)
Definition countCalls (p : Call -> bool) (log : list Call) : nat :=
  List.length (List.filter p log).

Definition isManagerDispose (call : Call) : bool :=
  match call with ManagerDispose => true | _ => false end.

Definition isManagerStart (call : Call) : bool :=
  match call with ManagerStart => true | _ => false end.

End ContainerApi.

(* ================================================================== *)
(** * Properties of the event data classes *)

Section JsFacts.
Import Js.

Lemma typeof_object_cases v :
  String.eqb (typeof v) "object" = true <->
  v = JNull \/ isArray v = true \/ isMappingObject v = true.
Proof.
  destruct v; simpl; split; intros H; try discriminate; auto;
    destruct H as [H | [H | H]]; try discriminate; auto.
Qed.

Lemma isDefined_true v : isDefined v = true <-> v <> JUndefined.
Proof.
  destruct v; simpl; split; intros H; try discriminate; auto; congruence.
Qed.

Lemma isUndefined_true v : isUndefined v = true <-> v = JUndefined.
Proof.
  destruct v; simpl; split; intros H; try discriminate; auto.
Qed.

Lemma isDefined_false v : isDefined v = false <-> v = JUndefined.
Proof.
  destruct v; simpl; split; intros H; try discriminate; auto.
Qed.

Lemma bind_Normal {A B} (c : Completion A) (k : A -> Completion B) b :
  bind c k = Normal b -> exists a, c = Normal a /\ k a = Normal b.
Proof.
  destruct c as [a | e]; simpl; intros H; [eauto | discriminate].
Qed.

End JsFacts.

Section ReturnEventDataFacts.
Import Js CallReturn.

(** The constructor either stores its three arguments or throws. *)
Lemma newReturnEventData_stores result error info d :
  newReturnEventData result error info = Normal d ->
  d = mkReturnEventData result error info.
Proof.
  unfold newReturnEventData. intros H.
  apply bind_Normal in H. destruct H as [valid [_ H]].
  destruct valid; simpl in H; congruence.
Qed.

(** Success of the constructor, by cases on the error argument. *)
Lemma newReturnEventData_result_only result info :
  result <> JUndefined ->
  newReturnEventData result JUndefined info =
  Normal (mkReturnEventData result JUndefined info).
Proof.
  intros H. destruct result; try reflexivity. congruence.
Qed.

Lemma newReturnEventData_error_object props info :
  lookupProp "code" props <> JUndefined ->
  lookupProp "message" props <> JUndefined ->
  newReturnEventData JUndefined (JObject props) info =
  Normal (mkReturnEventData JUndefined (JObject props) info).
Proof.
  intros Hc Hm. unfold newReturnEventData, Return_hasValidParameters. simpl.
  apply isDefined_true in Hc, Hm. unfold isDefined in Hc, Hm.
  destruct (isUndefined (lookupProp "code" props)); [discriminate |].
  simpl. destruct (isUndefined (lookupProp "message" props));
    [discriminate | reflexivity].
Qed.

(** C2. Constructing [ReturnEventData] succeeds only if exactly one of
    [result] and [error] is defined; with both given, and with neither
    given, the constructor throws its [TypeError]. *)
Theorem ReturnEventData_exactly_one_of_result_error
    (result error executionInfo : JsValue) :
  (succeeds (newReturnEventData result error executionInfo) ->
   (result <> JUndefined /\ error = JUndefined) \/
   (result = JUndefined /\ error <> JUndefined))
  /\ (result <> JUndefined -> error <> JUndefined ->
      newReturnEventData result error executionInfo = Throw Return_invalid)
  /\ (result = JUndefined -> error = JUndefined ->
      newReturnEventData result error executionInfo = Throw Return_invalid).
Proof.
  repeat split.
  - intros [d H]. unfold newReturnEventData, Return_hasValidParameters in H.
    simpl in H.
    destruct result, error; simpl in H; try discriminate;
      solve [ left; split; [discriminate | reflexivity]
            | right; split; [reflexivity | discriminate] ].
  - intros Hr He. unfold newReturnEventData, Return_hasValidParameters. simpl.
    apply isDefined_true in Hr, He. unfold isDefined in *.
    destruct (isUndefined result); [discriminate |].
    destruct (isUndefined error); [discriminate |]. reflexivity.
  - intros -> ->. reflexivity.
Qed.

Lemma ReturnEventData_exactly_one_of_result_error_witness :
  newReturnEventData (JNumber (85 # 1)) (JObject [("code", JNumber (1 # 1));
     ("message", JString "failed")]) JUndefined = Throw Return_invalid.
Proof.
  apply (proj1 (proj2 (ReturnEventData_exactly_one_of_result_error
                         (JNumber (85 # 1))
                         (JObject [("code", JNumber (1 # 1));
                                   ("message", JString "failed")])
                         JUndefined))); discriminate.
Defined.

(** C3, as the code has it.  With [result] absent, the constructor accepts
    an error exactly when it is an object ([typeof] gives ["object"]) whose
    [code] and [message] can be read and are both defined; whenever
    construction with an error succeeds this holds and [result] is
    [undefined].  Neither the type of [code] nor the type of [message] is
    inspected. *)
Theorem ReturnEventData_error_needs_code_and_message
    (result error executionInfo : JsValue) :
  error <> JUndefined ->
  (succeeds (newReturnEventData result error executionInfo) <->
   result = JUndefined /\ typeof error = "object" /\
   exists code message,
     getProp error "code" = Normal code /\ code <> JUndefined /\
     getProp error "message" = Normal message /\ message <> JUndefined).
Proof.
  intros He. split.
  - intros [d H]. unfold newReturnEventData, Return_hasValidParameters in H.
    simpl in H.
    destruct result; simpl in H;
      try (destruct error; simpl in H; solve [discriminate | congruence]).
    destruct error as [| | b | q | s | items | props]; simpl in H;
      try discriminate; try congruence.
    split; [reflexivity | split; [reflexivity |]].
    exists (lookupProp "code" props), (lookupProp "message" props).
    destruct (isUndefined (lookupProp "code" props)) eqn:Ec;
      [discriminate |].
    simpl in H.
    destruct (isUndefined (lookupProp "message" props)) eqn:Em;
      [discriminate |].
    repeat split; try reflexivity.
    + intros E. rewrite E in Ec. discriminate.
    + intros E. rewrite E in Em. discriminate.
  - intros [-> [Ht [code [message [Hc [Hcd [Hm Hmd]]]]]]].
    destruct error as [| | b | q | s | items | props]; simpl in *;
      try discriminate; try congruence.
    injection Hc as <-. injection Hm as <-.
    eexists. apply newReturnEventData_error_object; assumption.
Qed.

Lemma ReturnEventData_error_needs_code_and_message_witness :
  succeeds (newReturnEventData JUndefined
              (JObject [("code", JNumber (-32602 # 1));
                        ("message", JString "Invalid params")])
              (JObject [("duration", JNumber (4711 # 1))])).
Proof.
  apply (ReturnEventData_error_needs_code_and_message JUndefined
           (JObject [("code", JNumber (-32602 # 1));
                     ("message", JString "Invalid params")])
           (JObject [("duration", JNumber (4711 # 1))])).
  - discriminate.
  - split; [reflexivity | split; [reflexivity |]].
    exists (JNumber (-32602 # 1)), (JString "Invalid params").
    repeat split; discriminate.
Defined.

(** C3, as stated, fails: an error whose [code] is the non-integer 1.5 and
    whose [message] is the number 42 is accepted, by the constructor and by
    [createFrom] on the corresponding JSON payload. *)
Lemma ReturnEventData_error_types_unchecked :
  newReturnEventData JUndefined
    (JObject [("code", JNumber (3 # 2)); ("message", JNumber (42 # 1))])
    JUndefined
  = Normal (mkReturnEventData JUndefined
              (JObject [("code", JNumber (3 # 2));
                        ("message", JNumber (42 # 1))])
              JUndefined)
  /\ Return_createFrom
       (JObject [("error",
                  JObject [("code", JNumber (3 # 2));
                           ("message", JNumber (42 # 1))])])
     = Normal (mkReturnEventData JUndefined
                 (JObject [("code", JNumber (3 # 2));
                           ("message", JNumber (42 # 1))])
                 JUndefined)
  /\ isIntegerNumber (JNumber (3 # 2)) = false
  /\ isString (JNumber (42 # 1)) = false.
Proof.
  repeat split; reflexivity.
Qed.

End ReturnEventDataFacts.

Section CallEventDataFacts.
Import Js Topic CallReturn.

Variable isContextFilterValid : JsValue -> bool.
Variable ObjectMatcher_matchesFilter : JsValue -> JsValue -> bool.

(** What the validity check of the constructor amounts to. *)
Lemma newCallEventData_succeeds_iff parameters filter :
  succeeds (newCallEventData isContextFilterValid parameters filter) <->
  (parameters = JUndefined \/ isArray parameters = true \/
   String.eqb (typeof parameters) "object" = true)
  /\ isContextFilterValid filter = true.
Proof.
  unfold newCallEventData, Call_hasValidParameters. simpl.
  destruct (isContextFilterValid filter).
  - rewrite andb_true_r. split.
    + intros [d H]. split; [| reflexivity].
      destruct parameters; simpl in *; try discriminate; auto.
    + intros [[-> | [H | H]] _]; simpl.
      * eexists; reflexivity.
      * destruct parameters; try discriminate. eexists; reflexivity.
      * destruct parameters; try discriminate; eexists; reflexivity.
  - rewrite andb_false_r. simpl. split.
    + intros [d H]. discriminate.
    + intros [_ H]. discriminate.
Qed.

Lemma newCallEventData_stores parameters filter d :
  newCallEventData isContextFilterValid parameters filter = Normal d ->
  d = mkCallEventData parameters filter.
Proof.
  unfold newCallEventData.
  destruct (negb _); intros H; [discriminate | congruence].
Qed.

Lemma newCallEventData_raises_TypeError parameters filter :
  succeeds (newCallEventData isContextFilterValid parameters filter) \/
  newCallEventData isContextFilterValid parameters filter = Throw Call_invalid.
Proof.
  unfold newCallEventData. destruct (negb _); [right | left]; eauto.
  eexists; reflexivity.
Qed.

(** The shapes the check of the constructor tells apart: with a valid
    context filter, undefined parameters, arrays and mapping objects are
    accepted, and numbers, strings and booleans are rejected with the
    constructor's [TypeError]. *)
Lemma newCallEventData_shapes parameters filter :
  isContextFilterValid filter = true ->
  (parameters = JUndefined \/ isArray parameters = true \/
   isMappingObject parameters = true ->
   succeeds (newCallEventData isContextFilterValid parameters filter))
  /\ (typeof parameters = "number" \/ typeof parameters = "string" \/
      typeof parameters = "boolean" ->
      newCallEventData isContextFilterValid parameters filter =
      Throw Call_invalid).
Proof.
  intros Hf. split.
  - intros H. apply newCallEventData_succeeds_iff. split; [| assumption].
    destruct H as [H | [H | H]]; auto.
    right; right. apply typeof_object_cases. auto.
  - intros H. unfold newCallEventData, Call_hasValidParameters. simpl.
    destruct parameters; simpl in *;
      destruct H as [H | [H | H]]; try discriminate; reflexivity.
Qed.

(** C5, where the code departs from it: [typeof null] is ["object"], so
    [null] passes the check of the constructor although it is neither
    undefined, nor an array, nor a by-name mapping; [createFrom] lets it in
    from a JSON payload, and reading a parameter by name from the resulting
    event data throws. *)
Theorem CallEventData_accepts_null_parameters (filter : JsValue) :
  isContextFilterValid filter = true ->
  newCallEventData isContextFilterValid JNull filter =
    Normal (mkCallEventData JNull filter)
  /\ Call_createFrom isContextFilterValid
       (JObject [("parameters", JNull); ("filter", filter)]) =
     Normal (mkCallEventData JNull filter)
  /\ JNull <> JUndefined /\ isArray JNull = false
  /\ isMappingObject JNull = false
  /\ raisesTypeError
       (getParameterByName (mkCallEventData JNull filter) "state").
Proof.
  intros Hf.
  assert (E : newCallEventData isContextFilterValid JNull filter =
              Normal (mkCallEventData JNull filter)).
  { unfold newCallEventData, Call_hasValidParameters. simpl.
    rewrite Hf. reflexivity. }
  split; [exact E |].
  split; [exact E |].
  split; [discriminate |].
  split; [reflexivity |].
  split; [reflexivity |].
  eexists. reflexivity.
Qed.

(** C4. [matchesFilter] answers [false] exactly when the event data carries
    a context filter, a context object is supplied, and the object does not
    satisfy the filter; in particular a receiver that supplies no context
    object always gets [true], and so does event data without a filter. *)
Theorem matchesFilter_false_iff (d : CallEventData) (context : JsValue) :
  (matchesFilter ObjectMatcher_matchesFilter d context = false <->
   _filter d <> JUndefined /\ context <> JUndefined /\
   ObjectMatcher_matchesFilter context (_filter d) = false)
  /\ matchesFilter ObjectMatcher_matchesFilter d JUndefined = true
  /\ matchesFilter ObjectMatcher_matchesFilter
       (mkCallEventData (_parameters d) JUndefined) context = true.
Proof.
  unfold matchesFilter. repeat split.
  - destruct (isDefined (_filter d)) eqn:Ef; simpl in H; [| discriminate].
    apply isDefined_true. assumption.
  - destruct (isDefined (_filter d)); simpl in H; [| discriminate].
    destruct (isDefined context) eqn:Ec; [| discriminate].
    apply isDefined_true. assumption.
  - destruct (isDefined (_filter d)); simpl in H; [| discriminate].
    destruct (isDefined context); [assumption | discriminate].
  - intros [Hf [Hc Hm]].
    apply isDefined_true in Hf, Hc. rewrite Hf, Hc. simpl. assumption.
  - simpl. rewrite andb_false_r. reflexivity.
Qed.

(** C7. Feeding the JSON object of successfully constructed Call or Return
    event data back into [createFrom] succeeds and yields event data with
    the same JSON object. *)
Theorem eventData_json_roundtrip :
  (forall parameters filter e,
     newCallEventData isContextFilterValid parameters filter = Normal e ->
     exists e',
       Call_createFrom isContextFilterValid (Call_toJsonObject e) = Normal e'
       /\ Call_toJsonObject e' = Call_toJsonObject e)
  /\ (forall result error executionInfo e,
        newReturnEventData result error executionInfo = Normal e ->
        exists e',
          Return_createFrom (Return_toJsonObject e) = Normal e'
          /\ Return_toJsonObject e' = Return_toJsonObject e).
Proof.
  split.
  - intros parameters filter e H. exists e.
    pose proof (newCallEventData_stores _ _ _ H) as ->.
    split; [| reflexivity]. exact H.
  - intros result error executionInfo e H. exists e.
    pose proof (newReturnEventData_stores _ _ _ _ H) as ->.
    split; [| reflexivity]. exact H.
Qed.

End CallEventDataFacts.

Lemma CallEventData_accepts_null_parameters_witness :
  Js.raisesTypeError
    (CallReturn.getParameterByName
       (CallReturn.mkCallEventData Js.JNull Js.JUndefined) "state").
Proof.
  apply (CallEventData_accepts_null_parameters (fun _ => true) Js.JUndefined).
  reflexivity.
Defined.

Lemma eventData_json_roundtrip_witness :
  let parameters :=
    Js.JObject [("state", Js.JString "on"); ("color", Js.JString "green")] in
  exists e',
    CallReturn.Call_createFrom (fun _ => true)
      (CallReturn.Call_toJsonObject
         (CallReturn.mkCallEventData parameters Js.JUndefined)) = Js.Normal e'
    /\ CallReturn.Call_toJsonObject e' =
       CallReturn.Call_toJsonObject
         (CallReturn.mkCallEventData parameters Js.JUndefined).
Proof.
  apply (proj1 (eventData_json_roundtrip (fun _ => true))
           (Js.JObject [("state", Js.JString "on");
                        ("color", Js.JString "green")])
           Js.JUndefined).
  reflexivity.
Defined.

(* ================================================================== *)
(** * Properties of event identifiers *)

Section EventIdentifierFacts.
Import Js Topic CallReturn.

Lemma isIllegalTopicChar_spec c :
  isIllegalTopicChar c = true <->
  c = NUL \/ c = "#"%char \/ c = "+"%char \/ c = "/"%char.
Proof.
  unfold isIllegalTopicChar. rewrite !orb_true_iff, !Ascii.eqb_eq. tauto.
Qed.

Lemma hasOnlySafeChars_false_iff s :
  hasOnlySafeChars s = false <-> containsIllegalChar s.
Proof.
  unfold hasOnlySafeChars, containsIllegalChar.
  induction s as [| c s IH]; simpl.
  - split; [discriminate | intros [c [[] _]]].
  - destruct (isIllegalTopicChar c) eqn:Ec; simpl.
    + split; [| reflexivity]. intros _. exists c. split; [left; reflexivity |].
      apply isIllegalTopicChar_spec. assumption.
    + rewrite IH. split.
      * intros [c' [Hin Hc']]. exists c'. auto.
      * intros [c' [[<- | Hin] Hc']].
        -- apply isIllegalTopicChar_spec in Hc'. congruence.
        -- exists c'. auto.
Qed.

Lemma isValidEventTypeFilter_false_iff s :
  isValidEventTypeFilter s = false <-> s = "" \/ containsIllegalChar s.
Proof.
  unfold isValidEventTypeFilter, isTopicLevel.
  rewrite andb_false_iff, negb_false_iff, String.eqb_eq,
    hasOnlySafeChars_false_iff. tauto.
Qed.

Lemma isValidEventTypeFilter_true_iff s :
  isValidEventTypeFilter s = true <-> s <> "" /\ ~ containsIllegalChar s.
Proof.
  destruct (isValidEventTypeFilter s) eqn:E.
  - split; [intros _ | reflexivity].
    split; intros H;
      assert (F : isValidEventTypeFilter s = false)
        by (apply isValidEventTypeFilter_false_iff; auto); congruence.
  - apply isValidEventTypeFilter_false_iff in E.
    split; [discriminate | tauto].
Qed.

(** C6. Constructing a [CallEvent] raises exactly when its operation name is
    empty or contains one of NUL, [#], [+], [/]; constructing a
    [ChannelEvent] raises under the same condition on its channel
    identifier; every other name is accepted by both. *)
Theorem event_identifier_rejected_iff
    (eventSource : Component) (identifier : string)
    (callData : CallEventData) (D : Type) (channelData : D) :
  (raises (newCallEvent eventSource identifier callData) <->
   identifier = "" \/ containsIllegalChar identifier)
  /\ (raises (newChannelEvent eventSource identifier channelData) <->
      identifier = "" \/ containsIllegalChar identifier)
  /\ (identifier <> "" -> ~ containsIllegalChar identifier ->
      newCallEvent eventSource identifier callData =
        Normal (mkCallEvent eventSource identifier callData)
      /\ newChannelEvent eventSource identifier channelData =
        Normal (mkChannelEvent eventSource identifier channelData)).
Proof.
  unfold newCallEvent, newChannelEvent.
  destruct (isValidEventTypeFilter identifier) eqn:E; simpl.
  - apply isValidEventTypeFilter_true_iff in E.
    repeat split; try (intros [e H]; discriminate); tauto.
  - apply isValidEventTypeFilter_false_iff in E.
    repeat split; try (intros _; eexists; reflexivity); tauto.
Qed.

(** The identifiers of the test suite: ["/foo/+/"] throws, ["foo_bar-baz"]
    does not. *)
Example channel_identifier_tests (eventSource : Component) :
  newChannelEvent eventSource "/foo/+/" tt = Throw ChannelEvent_invalid
  /\ newChannelEvent eventSource "foo_bar-baz" tt =
     Normal (mkChannelEvent eventSource "foo_bar-baz" tt).
Proof.
  split; reflexivity.
Qed.

End EventIdentifierFacts.

Lemma event_identifier_rejected_iff_witness :
  let eventSource := Topic.mkComponent "3d34eb53-2536-4134-b0cd-8c406b94bb80"
                       "MockOperationsCallController1" in
  let callData := CallReturn.mkCallEventData Js.JUndefined Js.JUndefined in
  CallReturn.newCallEvent eventSource "coaty.test.switchLight" callData =
    Js.Normal (CallReturn.mkCallEvent eventSource "coaty.test.switchLight" callData)
  /\ CallReturn.newChannelEvent eventSource "coaty.test.switchLight" tt =
    Js.Normal (CallReturn.mkChannelEvent eventSource "coaty.test.switchLight" tt).
Proof.
  apply (proj2 (proj2 (event_identifier_rejected_iff
                         (Topic.mkComponent "3d34eb53-2536-4134-b0cd-8c406b94bb80"
                            "MockOperationsCallController1")
                         "coaty.test.switchLight"
                         (CallReturn.mkCallEventData Js.JUndefined Js.JUndefined)
                         unit tt))).
  - discriminate.
  - intros H. apply hasOnlySafeChars_false_iff in H. discriminate.
Defined.

(* ================================================================== *)
(** * Properties of the topic codec *)

Section StringFacts.
Import Topic.
Local Open Scope string_scope.

Lemma stringForall_app p s1 s2 :
  stringForall p (s1 ++ s2) = stringForall p s1 && stringForall p s2.
Proof.
  induction s1 as [| c s1 IH]; simpl; [reflexivity |].
  rewrite IH, andb_assoc. reflexivity.
Qed.

Lemma stringForall_cons p c s :
  stringForall p (String c s) = p c && stringForall p s.
Proof. reflexivity. Qed.

Lemma stringForall_impl (p q : ascii -> bool) s :
  (forall c, p c = true -> q c = true) ->
  stringForall p s = true -> stringForall q s = true.
Proof.
  intros Hpq. induction s as [| c s IH]; simpl; [reflexivity |].
  rewrite !andb_true_iff. intros [Hc Hs]. auto.
Qed.

Lemma stringForall_map p f s :
  stringForall p (stringMap f s) = stringForall (fun c => p (f c)) s.
Proof.
  induction s as [| c s IH]; simpl; [reflexivity |]. rewrite IH. reflexivity.
Qed.

Lemma length_app s1 s2 :
  String.length (s1 ++ s2) = String.length s1 + String.length s2.
Proof.
  induction s1 as [| c s1 IH]; simpl; [reflexivity |]. rewrite IH. reflexivity.
Qed.

Lemma substring_all s : substring 0 (String.length s) s = s.
Proof.
  induction s as [| c s IH]; simpl; [reflexivity |]. rewrite IH. reflexivity.
Qed.

Lemma substring_skip_prefix s1 s2 :
  substring (String.length s1) (String.length s2) (s1 ++ s2) = s2.
Proof.
  induction s1 as [| c s1 IH]; simpl; [apply substring_all | exact IH].
Qed.

Lemma stringMap_id_iff (f : ascii -> ascii) s :
  stringMap f s = s <-> stringForall (fun c => Ascii.eqb (f c) c) s = true.
Proof.
  induction s as [| c s IH]; simpl; [tauto |].
  rewrite andb_true_iff, Ascii.eqb_eq, <- IH. split.
  - intros H. injection H as Hc Hs. auto.
  - intros [-> ->]. reflexivity.
Qed.

Lemma append_inj_r s t1 t2 : s ++ t1 = s ++ t2 -> t1 = t2.
Proof.
  induction s as [| c s IH]; simpl; [auto |].
  intros H. injection H as H. auto.
Qed.

Lemma append_inj_l s1 s2 t :
  String.length s1 = String.length s2 -> s1 ++ t = s2 ++ t -> s1 = s2.
Proof.
  revert s2. induction s1 as [| c s1 IH]; intros [| c2 s2]; simpl;
    try discriminate; [reflexivity |].
  intros Hl H. injection Hl as Hl. injection H as -> H.
  f_equal. auto.
Qed.

Lemma stringMap_length f s : String.length (stringMap f s) = String.length s.
Proof.
  induction s as [| c s IH]; simpl; [reflexivity |]. rewrite IH. reflexivity.
Qed.

(** Splitting a joined list of separator-free levels gives the levels. *)
Lemma splitOn_nonempty sep s : splitOn sep s <> [].
Proof.
  induction s as [| c s IH]; simpl; [discriminate |].
  destruct (Ascii.eqb c sep); [discriminate |].
  destruct (splitOn sep s); [contradiction | discriminate].
Qed.

Lemma splitOn_sepFree sep s : sepFree sep s = true -> splitOn sep s = [s].
Proof.
  unfold sepFree. induction s as [| c s IH]; simpl; [reflexivity |].
  rewrite andb_true_iff. intros [Hc Hs].
  apply negb_true_iff in Hc. rewrite Hc, (IH Hs). reflexivity.
Qed.

Lemma splitOn_level sep s rest :
  sepFree sep s = true ->
  splitOn sep (s ++ String sep rest) = s :: splitOn sep rest.
Proof.
  unfold sepFree. induction s as [| c s IH]; simpl.
  - intros _. rewrite Ascii.eqb_refl. reflexivity.
  - rewrite andb_true_iff. intros [Hc Hs].
    apply negb_true_iff in Hc. rewrite Hc, (IH Hs). reflexivity.
Qed.

Lemma splitOn_join sep levels :
  levels <> [] ->
  forallb (sepFree sep) levels = true ->
  splitOn sep (String.concat (String sep "") levels) = levels.
Proof.
  induction levels as [| l levels IH]; [congruence |].
  intros _. simpl forallb. rewrite andb_true_iff. intros [Hl Hls].
  destruct levels as [| l' levels'].
  - simpl. apply splitOn_sepFree. assumption.
  - change (String.concat (String sep "") (l :: l' :: levels'))
      with (l ++ String sep (String.concat (String sep "") (l' :: levels'))).
    rewrite splitOn_level by assumption.
    rewrite IH by (assumption || discriminate). reflexivity.
Qed.

Lemma stringForall_join p sep levels :
  p sep = true ->
  forallb (stringForall p) levels = true ->
  stringForall p (String.concat (String sep "") levels) = true.
Proof.
  intros Hsep. induction levels as [| l levels IH]; [reflexivity |].
  simpl forallb. rewrite andb_true_iff. intros [Hl Hls].
  destruct levels as [| l' levels'].
  - simpl. assumption.
  - change (String.concat (String sep "") (l :: l' :: levels'))
      with (l ++ String sep (String.concat (String sep "") (l' :: levels'))).
    rewrite stringForall_app, stringForall_cons, Hl, Hsep, (IH Hls).
    reflexivity.
Qed.

End StringFacts.

Section TopicFacts.
Import Js Topic.
Local Open Scope string_scope.

Lemma isTopicLevel_iff s :
  isTopicLevel s = true <-> s <> "" /\ hasOnlySafeChars s = true.
Proof.
  unfold isTopicLevel.
  rewrite andb_true_iff, negb_true_iff, String.eqb_neq. tauto.
Qed.

Lemma hasOnlySafeChars_app s1 s2 :
  hasOnlySafeChars (s1 ++ s2) = hasOnlySafeChars s1 && hasOnlySafeChars s2.
Proof. apply stringForall_app. Qed.

Lemma safe_sepFree s :
  hasOnlySafeChars s = true -> sepFree LEVEL_SEPARATOR s = true.
Proof.
  apply stringForall_impl. intros c. unfold isIllegalTopicChar.
  rewrite !negb_true_iff, !orb_false_iff. tauto.
Qed.

Lemma safe_noWildcard s :
  hasOnlySafeChars s = true ->
  stringForall (fun c => negb (isWildcardOrNul c)) s = true.
Proof.
  apply stringForall_impl. intros c.
  unfold isIllegalTopicChar, isWildcardOrNul.
  rewrite !negb_true_iff, !orb_false_iff. tauto.
Qed.

Lemma sanitize_safe name : hasOnlySafeChars (sanitize name) = true.
Proof.
  unfold hasOnlySafeChars, sanitize. rewrite stringForall_map.
  induction name as [| c name IH]; simpl; [reflexivity |].
  rewrite IH, andb_true_r.
  destruct (isIllegalTopicChar c) eqn:E; [reflexivity | rewrite E; reflexivity].
Qed.

Lemma sanitizeChar_fixed c :
  Ascii.eqb (if isIllegalTopicChar c then "_"%char else c) c
  = negb (isIllegalTopicChar c).
Proof.
  destruct (isIllegalTopicChar c) eqn:E; [| apply Ascii.eqb_refl].
  apply Ascii.eqb_neq. intros <-. discriminate.
Qed.

(** Sanitization leaves a name unchanged exactly when the name contains
    only safe characters. *)
Lemma sanitize_id_iff name :
  sanitize name = name <-> hasOnlySafeChars name = true.
Proof.
  unfold sanitize, hasOnlySafeChars. rewrite stringMap_id_iff.
  induction name as [| c name IH]; [simpl; tauto |].
  rewrite !stringForall_cons, !andb_true_iff, IH, sanitizeChar_fixed. tauto.
Qed.

Lemma decimal_safe d : hasOnlySafeChars (NilEmpty.string_of_uint d) = true.
Proof.
  induction d; simpl; try reflexivity; exact IHd.
Qed.

Lemma to_uint_nonnil n : Nat.to_uint n <> Nil.
Proof.
  rewrite <- (DecimalNat.Unsigned.of_to n) at 1.
  rewrite DecimalNat.Unsigned.to_of. apply DecimalFacts.unorm_nonnil.
Qed.

Lemma natToString_level n : isTopicLevel (natToString n) = true.
Proof.
  apply isTopicLevel_iff. unfold natToString.
  pose proof (to_uint_nonnil n) as Hn.
  destruct (Nat.to_uint n) eqn:E; try congruence;
    (split; [discriminate |]); simpl; apply decimal_safe.
Qed.

Lemma parseNat_natToString n : parseNat (natToString n) = Some n.
Proof.
  unfold parseNat, natToString.
  rewrite NilZero.usu by apply to_uint_nonnil.
  simpl. rewrite DecimalNat.Unsigned.of_to. reflexivity.
Qed.

Lemma eventKind_of_eventTypeName t f :
  eventTypeOfKindName
    (takeUntil EVENT_TYPE_FILTER_SEPARATOR (getEventTypeName t f)) = Some t.
Proof.
  destruct f as [f |], t; reflexivity.
Qed.

Lemma eventTypeName_level t f :
  match f with Some f => isValidEventTypeFilter f = true | None => True end ->
  isTopicLevel (getEventTypeName t f) = true.
Proof.
  intros Hf. apply isTopicLevel_iff. destruct f as [f |].
  - apply isTopicLevel_iff in Hf. destruct Hf as [_ Hf].
    split; [destruct t; discriminate |].
    unfold getEventTypeName.
    change (String EVENT_TYPE_FILTER_SEPARATOR f) with (":" ++ f).
    rewrite !hasOnlySafeChars_app, Hf. destruct t; reflexivity.
  - destruct t; split; (discriminate || reflexivity).
Qed.

Lemma readable_level name uuid :
  isTopicLevel uuid = true ->
  isTopicLevel (readable name uuid) = true
  /\ readable name uuid <> EMPTY_ASSOCIATED_USER_ID.
Proof.
  intros Hu. apply isTopicLevel_iff in Hu. destruct Hu as [Hne Hs].
  unfold readable. split.
  - apply isTopicLevel_iff. split.
    + destruct (sanitize name); discriminate.
    + rewrite !hasOnlySafeChars_app, sanitize_safe, Hs. reflexivity.
  - intros E. apply (f_equal String.length) in E.
    rewrite !length_app in E. simpl in E.
    destruct uuid; [congruence | simpl in E; lia].
Qed.

Lemma canonicalToken_level sender counter :
  isTopicLevel sender = true ->
  isTopicLevel (canonicalToken sender counter) = true.
Proof.
  intros Hs. apply isTopicLevel_iff in Hs. destruct Hs as [Hne Hs].
  pose proof (natToString_level counter) as Hc.
  apply isTopicLevel_iff in Hc. destruct Hc as [_ Hc].
  apply isTopicLevel_iff. unfold canonicalToken. split.
  - destruct sender; [congruence | discriminate].
  - rewrite !hasOnlySafeChars_app, Hs, Hc. reflexivity.
Qed.

(** Topics built by [createByLevels] from well-formed fields are well
    formed. *)
Lemma createByLevels_wellFormed cs user source eventType filter token v readableMode :
  validFields user source filter = true ->
  wellFormedTopic
    (fst (createByLevels cs user source eventType filter token v readableMode)).
Proof.
  unfold validFields. rewrite !andb_true_iff. intros [[Hu Hs] Hf].
  unfold wellFormedTopic. simpl.
  split; [assumption |].
  split; [apply canonicalToken_level; assumption |].
  split; [apply eventTypeName_level; destruct filter; auto |].
  split; [apply eventKind_of_eventTypeName |].
  destruct user as [u |]; [| exact I].
  apply andb_true_iff in Hu. destruct Hu as [Hl Hd].
  apply negb_true_iff, String.eqb_neq in Hd.
  destruct readableMode; [apply readable_level; assumption | auto].
Qed.

(** Decoding the name of a well-formed topic gives the topic back. *)
Lemma createByName_getTopicName t :
  wellFormedTopic t -> createByName (getTopicName t) = Normal t.
Proof.
  intros (Hs & Hm & He & Hk & Hu).
  set (userLevel := match associatedUserId t with
                    | Some u => u
                    | None => EMPTY_ASSOCIATED_USER_ID
                    end).
  assert (Hul : isTopicLevel userLevel = true).
  { unfold userLevel. destruct (associatedUserId t); [apply Hu | reflexivity]. }
  pose proof (natToString_level (version t)) as Hv.
  apply isTopicLevel_iff in Hs, Hm, He, Hul, Hv.
  destruct Hs as [Hs0 Hs], Hm as [Hm0 Hm], He as [He0 He],
    Hul as [Hul0 Hul], Hv as [Hv0 Hv].
  unfold createByName, getTopicName. fold userLevel.
  unfold joinLevels at 1.
  rewrite splitOn_join.
  - assert (Hw : stringForall (fun c => negb (isWildcardOrNul c))
                   (joinLevels
                      [""; PROTOCOL_NAME; natToString (version t);
                       eventTypeName t; userLevel; sourceObjectId t;
                       messageToken t; ""]) = true).
    { apply stringForall_join; [reflexivity |].
      cbn [forallb].
      rewrite !safe_noWildcard by (assumption || reflexivity).
      reflexivity. }
    rewrite Hw.
    apply String.eqb_neq in Hs0, Hm0, He0, Hul0.
    rewrite Hs0, Hm0, He0, Hul0, parseNat_natToString, Hk.
    rewrite !String.eqb_refl. cbn [negb orb].
    destruct t as [user src ety etn tok v]. cbn in *. f_equal. f_equal.
    unfold userLevel. destruct user as [u |]; [| reflexivity].
    destruct Hu as [_ Hu]. apply String.eqb_neq in Hu. rewrite Hu.
    reflexivity.
  - discriminate.
  - cbn [forallb].
    rewrite !safe_sepFree by (assumption || reflexivity).
    reflexivity.
Qed.

(** A UUID fits a topic level and is not the no-user marker. *)
Lemma uuidShape_safe i s :
  uuidShapeFrom i s = true -> hasOnlySafeChars s = true.
Proof.
  revert i. induction s as [| c s IH]; intros i; [reflexivity |].
  cbn [uuidShapeFrom]. unfold hasOnlySafeChars.
  rewrite stringForall_cons, !andb_true_iff. intros [Hc Hs].
  split; [| exact (IH _ Hs)].
  destruct ((i =? 8)%nat || (i =? 13)%nat || (i =? 18)%nat || (i =? 23)%nat).
  - apply Ascii.eqb_eq in Hc. subst c. reflexivity.
  - destruct c as [[|] [|] [|] [|] [|] [|] [|] [|]];
      solve [reflexivity | discriminate Hc].
Qed.

Lemma isUuid_level s :
  isUuid s = true ->
  isTopicLevel s = true /\ s <> EMPTY_ASSOCIATED_USER_ID.
Proof.
  unfold isUuid. rewrite andb_true_iff, Nat.eqb_eq. intros [Hl Hs].
  split.
  - apply isTopicLevel_iff. split; [intros -> ; discriminate |].
    exact (uuidShape_safe _ _ Hs).
  - intros ->. discriminate.
Qed.

(** The UUID of an identifier is recovered from its readable level and from
    the identifier itself. *)
Lemma uuidFromLevel_readable name uuid :
  isUuid uuid = true ->
  uuidFromLevel (readable name uuid) = Some uuid
  /\ uuidFromLevel uuid = Some uuid.
Proof.
  intros Hu. assert (Hl : String.length uuid = 36).
  { unfold isUuid in Hu. apply andb_true_iff in Hu.
    apply Nat.eqb_eq. apply Hu. }
  unfold uuidFromLevel, readable. split.
  - assert (E : sanitize name ++ READABLE_TOPIC_SEPARATOR ++ uuid
                = (sanitize name ++ READABLE_TOPIC_SEPARATOR) ++ uuid).
    { generalize (sanitize name). intros p.
      induction p as [| c p IH]; simpl; [reflexivity | rewrite <- IH; reflexivity]. }
    assert (Hsub : forall p, substring (String.length p) 36 (p ++ uuid) = uuid).
    { intros p. rewrite <- Hl. apply substring_skip_prefix. }
    rewrite E, length_app, Hl, Nat.add_sub, Hsub, Hu. reflexivity.
  - assert (Hsub : substring 0 36 uuid = uuid).
    { rewrite <- Hl. apply substring_all. }
    rewrite Hl. cbn [Nat.sub]. rewrite Hsub, Hu. reflexivity.
Qed.

(** C1. A topic built from well-formed fields, in readable or non-readable
    mode, is recovered field by field from its topic name: associated user
    level, source object id, event type, event type name, message token and
    version; so is the same topic with any other message token that fits a
    topic level.  In readable mode the user level is the name-prefixed
    object id with the name sanitized; it is the unsanitized concatenation
    exactly when the name contains only safe characters, and either way the
    trailing UUID is the user's object id. *)
Theorem topic_decode_encode
    (cs : TokenCounters) (associatedUser : option User) (source : string)
    (eventType : CommunicationEventType) (eventTypeFilter : option string)
    (messageToken : string) (protocolVersion : nat) (isReadable : bool) :
  validFields associatedUser source eventTypeFilter = true ->
  let topic := fst (createByLevels cs associatedUser source eventType
                      eventTypeFilter messageToken protocolVersion isReadable) in
  createByName (getTopicName topic) = Normal topic
  /\ (forall token,
        isTopicLevel token = true ->
        let topic' :=
          mkTopic (Topic.associatedUserId topic) (sourceObjectId topic)
            (Topic.eventType topic) (eventTypeName topic) token
            (version topic) in
        createByName (getTopicName topic') = Normal topic')
  /\ (forall u, associatedUser = Some u -> isReadable = true ->
      exists level,
        (tpc <- createByName (getTopicName topic) ;;
         Normal (Topic.associatedUserId tpc)) = Normal (Some level)
        /\ level = readable (userName u) (userObjectId u)
        /\ (level = rawReadable (userName u) (userObjectId u) <->
            hasOnlySafeChars (userName u) = true)
        /\ (isUuid (userObjectId u) = true ->
            uuidFromLevel level = Some (userObjectId u))).
Proof.
  intros Hv topic.
  pose proof (createByLevels_wellFormed cs _ _ eventType _ messageToken
                protocolVersion isReadable Hv) as Hwf.
  fold topic in Hwf.
  assert (Hrt : createByName (getTopicName topic) = Normal topic).
  { apply createByName_getTopicName, Hwf. }
  split; [exact Hrt |]. split.
  { intros token Htoken topic'. apply createByName_getTopicName.
    destruct Hwf as (Hs & _ & He & Hk & Hu).
    unfold wellFormedTopic, topic'. cbn. auto. }
  intros u -> ->. exists (readable (userName u) (userObjectId u)).
  rewrite Hrt. split; [reflexivity |]. split; [reflexivity |]. split.
  - unfold readable, rawReadable. rewrite <- sanitize_id_iff. split.
    + intros E. apply append_inj_l in E; [exact E |].
      apply stringMap_length.
    + intros ->. reflexivity.
  - intros Hu. apply uuidFromLevel_readable. exact Hu.
Qed.

Lemma lookupCounter_store_same sender n cs :
  lookupCounter sender (storeCounter sender n cs) = Some n.
Proof.
  induction cs as [| [k m] cs IH]; simpl.
  - rewrite String.eqb_refl. reflexivity.
  - destruct (String.eqb k sender) eqn:E; simpl; rewrite E; auto.
Qed.

Lemma lookupCounter_store_other sender other n cs :
  other <> sender ->
  lookupCounter sender (storeCounter other n cs) = lookupCounter sender cs.
Proof.
  intros Hne. induction cs as [| [k m] cs IH]; simpl.
  - apply String.eqb_neq in Hne. rewrite Hne. reflexivity.
  - destruct (String.eqb k other) eqn:E; simpl.
    + apply String.eqb_eq in E. subst k.
      apply String.eqb_neq in Hne. rewrite Hne. reflexivity.
    + destruct (String.eqb k sender); auto.
Qed.

(** Topics built by other senders leave a sender's counter alone. *)
Lemma tokenCounter_other_sender cs user other sender ety f tok v r user' :
  other <> sender ->
  tokenCounter (snd (createByLevels cs user other ety f tok v r)) sender user'
  = tokenCounter cs sender user'.
Proof.
  intros Hne. unfold tokenCounter. simpl.
  rewrite lookupCounter_store_other by assumption. reflexivity.
Qed.

(** C8. The first topic of a fresh sender carries the token
    [<senderObjectId>_0] when an associated user is present and
    [<senderObjectId>_1] when there is none; the token of the sender's next
    topic has the counter of the previous one plus one. *)
Theorem token_counter_convention
    (cs : TokenCounters) (source : string)
    (eventType eventType' : CommunicationEventType)
    (eventTypeFilter eventTypeFilter' : option string)
    (messageToken messageToken' : string) (protocolVersion : nat)
    (isReadable isReadable' : bool) :
  lookupCounter source cs = None ->
  (forall user,
     Topic.messageToken
       (fst (createByLevels cs (Some user) source eventType eventTypeFilter
               messageToken protocolVersion isReadable))
     = source ++ "_0")
  /\ Topic.messageToken
       (fst (createByLevels cs None source eventType eventTypeFilter
               messageToken protocolVersion isReadable))
     = source ++ "_1"
  /\ (forall cs0 user user',
        let first := createByLevels cs0 user source eventType eventTypeFilter
                       messageToken protocolVersion isReadable in
        let second := createByLevels (snd first) user' source eventType'
                        eventTypeFilter' messageToken' protocolVersion
                        isReadable' in
        exists counter,
          Topic.messageToken (fst first) = canonicalToken source counter
          /\ Topic.messageToken (fst second)
             = canonicalToken source (S counter)).
Proof.
  intros Hfresh. split; [| split].
  - intros user. simpl. unfold tokenCounter. rewrite Hfresh. reflexivity.
  - simpl. unfold tokenCounter. rewrite Hfresh. reflexivity.
  - intros cs0 user user' first second.
    exists (tokenCounter cs0 source user). split; [reflexivity |].
    unfold second, first. simpl. unfold tokenCounter at 1.
    rewrite lookupCounter_store_same. reflexivity.
Qed.

(** The expectations of the test suite on [topic] and [topicNoUser], and on
    a topic name whose user level has been emptied. *)
Example fixture_levels :
  fst fixtureTopic =
    mkTopic (Some "User___HHO__0ea293e5-f8be-4a5d-886b-0e231e8234b2")
      fixtureSenderId Advertise "Advertise:CoatyObject"
      "3d34eb53-2536-4134-b0cd-8c406b94bb80_0" 1
  /\ fst fixtureTopicNoUser =
    mkTopic None fixtureSenderId Advertise "Advertise:CoatyObject"
      "3d34eb53-2536-4134-b0cd-8c406b94bb80_1" 1
  /\ createByName (getTopicName (fst fixtureTopic)) = Normal (fst fixtureTopic)
  /\ createByName (getTopicName (fst fixtureTopicNoUser))
     = Normal (fst fixtureTopicNoUser)
  /\ getTopicName (fst fixtureTopicNoUser) =
     "/coaty/1/Advertise:CoatyObject/-/3d34eb53-2536-4134-b0cd-8c406b94bb80/3d34eb53-2536-4134-b0cd-8c406b94bb80_1/"
  /\ raises (createByName
       "/coaty/1/Advertise:CoatyObject//3d34eb53-2536-4134-b0cd-8c406b94bb80/3d34eb53-2536-4134-b0cd-8c406b94bb80_1/").
Proof.
  repeat split; try reflexivity. eexists. reflexivity.
Qed.

End TopicFacts.

Lemma topic_decode_encode_witness :
  Topic.createByName (Topic.getTopicName (fst Topic.fixtureTopic))
  = Js.Normal (fst Topic.fixtureTopic).
Proof.
  apply (proj1 (topic_decode_encode [] (Some Topic.fixtureUser)
                  Topic.fixtureSenderId Topic.Advertise (Some "CoatyObject")
                  Topic.fixtureToken 1 true eq_refl)).
Defined.

Lemma token_counter_convention_witness :
  Topic.messageToken (fst Topic.fixtureTopic)
  = "3d34eb53-2536-4134-b0cd-8c406b94bb80_0".
Proof.
  apply (proj1 (token_counter_convention [] Topic.fixtureSenderId
                  Topic.Advertise Topic.Advertise (Some "CoatyObject") None
                  Topic.fixtureToken Topic.fixtureToken 1 true true eq_refl)
           Topic.fixtureUser).
Defined.

(* ================================================================== *)
(** * Properties of the container *)

Section LogFacts.
Import Js Runtime.

Lemma callbacksOf_app ctrl l1 l2 :
  callbacksOf ctrl (l1 ++ l2) = callbacksOf ctrl l1 ++ callbacksOf ctrl l2.
Proof.
  induction l1 as [| call l1 IH]; simpl; [reflexivity |].
  destruct call as [i cb | |]; try exact IH.
  destruct (Nat.eqb i ctrl); simpl; rewrite IH; reflexivity.
Qed.

Lemma phaseAfter_app p l1 l2 :
  phaseAfter p (l1 ++ l2) =
  match phaseAfter p l1 with
  | Some q => phaseAfter q l2
  | None => None
  end.
Proof.
  revert p. induction l1 as [| cb l1 IH]; intros p; simpl; [reflexivity |].
  destruct (phaseStep p cb); [apply IH | reflexivity].
Qed.

Lemma callbacksOf_forEach_in ctrl cb ids :
  NoDup ids -> In ctrl ids ->
  callbacksOf ctrl (map (fun i => ControllerCall i cb) ids) = [cb].
Proof.
  induction ids as [| i ids IH]; intros Hnd Hin; [contradiction |].
  inversion Hnd as [| ? ? Hni Hnd']; subst. simpl.
  destruct (Nat.eqb_spec i ctrl) as [-> | Hne].
  - f_equal. clear IH Hin Hnd Hnd'.
    induction ids as [| j ids IH]; simpl; [reflexivity |].
    destruct (Nat.eqb_spec j ctrl) as [-> | Hj].
    + exfalso. apply Hni. left. reflexivity.
    + apply IH. intros H. apply Hni. right. exact H.
  - destruct Hin as [-> | Hin]; [congruence | auto].
Qed.

Lemma callbacksOf_forEach_notin ctrl cb ids :
  ~ In ctrl ids ->
  callbacksOf ctrl (map (fun i => ControllerCall i cb) ids) = [].
Proof.
  induction ids as [| i ids IH]; intros Hni; simpl; [reflexivity |].
  destruct (Nat.eqb_spec i ctrl) as [-> | Hne].
  - exfalso. apply Hni. left. reflexivity.
  - apply IH. intros H. apply Hni. right. exact H.
Qed.

Lemma dispatch_forEach state ids :
  flat_map (_dispatchOperatingState state) ids =
  match state with
  | Starting =>
      map (fun i => ControllerCall i OnCommunicationManagerStarting) ids
  | Stopping =>
      map (fun i => ControllerCall i OnCommunicationManagerStopping) ids
  | _ => []
  end.
Proof.
  induction ids as [| i ids IH]; simpl; [destruct state; reflexivity |].
  rewrite IH. destruct state; reflexivity.
Qed.

Lemma callbacksOf_dispatch_in ctrl state ids :
  NoDup ids -> In ctrl ids ->
  callbacksOf ctrl (flat_map (_dispatchOperatingState state) ids)
  = notifications [state].
Proof.
  intros Hnd Hin. rewrite dispatch_forEach.
  destruct state; simpl; try reflexivity;
    apply callbacksOf_forEach_in; assumption.
Qed.

Lemma callbacksOf_dispatch_notin ctrl state ids :
  ~ In ctrl ids ->
  callbacksOf ctrl (flat_map (_dispatchOperatingState state) ids) = [].
Proof.
  intros Hni. rewrite dispatch_forEach.
  destruct state; simpl; try reflexivity;
    apply callbacksOf_forEach_notin; assumption.
Qed.

Lemma notifications_app l1 l2 :
  notifications (l1 ++ l2) = notifications l1 ++ notifications l2.
Proof. apply flat_map_app. Qed.

Lemma callbacksOf_dispatchAll_in ctrl states ids :
  NoDup ids -> In ctrl ids ->
  callbacksOf ctrl (dispatchAll states ids) = notifications states.
Proof.
  intros Hnd Hin. induction states as [| s states IH]; [reflexivity |].
  change (dispatchAll (s :: states) ids)
    with (flat_map (_dispatchOperatingState s) ids ++ dispatchAll states ids).
  change (s :: states) with ([s] ++ states).
  rewrite callbacksOf_app, notifications_app, IH,
    callbacksOf_dispatch_in by assumption.
  reflexivity.
Qed.

Lemma callbacksOf_dispatchAll_notin ctrl states ids :
  ~ In ctrl ids -> callbacksOf ctrl (dispatchAll states ids) = [].
Proof.
  intros Hni. induction states as [| s states IH]; [reflexivity |].
  change (dispatchAll (s :: states) ids)
    with (flat_map (_dispatchOperatingState s) ids ++ dispatchAll states ids).
  rewrite callbacksOf_app, IH, callbacksOf_dispatch_notin by assumption.
  reflexivity.
Qed.

Lemma dispatchAll_app l1 l2 ids :
  dispatchAll (l1 ++ l2) ids = dispatchAll l1 ids ++ dispatchAll l2 ids.
Proof. apply flat_map_app. Qed.

Lemma quiet_dispatchAll states ids :
  forallb quietCall (dispatchAll states ids) = true.
Proof.
  induction states as [| s states IH]; [reflexivity |].
  change (dispatchAll (s :: states) ids)
    with (flat_map (_dispatchOperatingState s) ids ++ dispatchAll states ids).
  rewrite forallb_app, IH, andb_true_r, dispatch_forEach.
  clear IH. destruct s; try reflexivity;
    (induction ids as [| i ids IHi]; [reflexivity | exact IHi]).
Qed.

Lemma phaseAfter_notifications states :
  phaseAfter Resolved (notifications states) = Some Resolved.
Proof.
  induction states as [| s states IH]; [reflexivity |].
  destruct s; simpl; exact IH.
Qed.

Lemma disposesAfterManager_seen log :
  disposesAfterManager true log = true.
Proof.
  induction log as [| call log IH]; simpl; [reflexivity |].
  destruct call as [i cb | |]; [destruct cb |..]; simpl; exact IH.
Qed.

Lemma disposesAfterManager_quiet seen log rest :
  forallb quietCall log = true ->
  disposesAfterManager seen (log ++ rest) = disposesAfterManager seen rest.
Proof.
  induction log as [| call log IH]; simpl; [reflexivity |].
  rewrite andb_true_iff. intros [Hq Hl].
  destruct call as [i cb | |]; [destruct cb |..]; simpl in *;
    try discriminate; auto.
Qed.

Lemma inLifeOrder_phase cbs p :
  phaseAfter Fresh cbs = Some p -> inLifeOrder cbs = true.
Proof. unfold inLifeOrder. intros ->. reflexivity. Qed.

End LogFacts.

Section MapFacts.
Import Js Runtime.

Lemma mapGet_mapSet_same key v m : mapGet key (mapSet key v m) = Some v.
Proof.
  induction m as [| [k w] m IH]; simpl.
  - rewrite String.eqb_refl. reflexivity.
  - destruct (String.eqb k key) eqn:E; simpl; rewrite E; auto.
Qed.

Lemma mapGet_mapSet_other key key' v m :
  key <> key' -> mapGet key' (mapSet key v m) = mapGet key' m.
Proof.
  intros Hne. induction m as [| [k w] m IH]; simpl.
  - apply String.eqb_neq in Hne. rewrite Hne. reflexivity.
  - destruct (String.eqb k key) eqn:E; simpl.
    + apply String.eqb_eq in E. subst k.
      apply String.eqb_neq in Hne. rewrite Hne. reflexivity.
    + destruct (String.eqb k key'); auto.
Qed.

Lemma instances_mapSet_in key ctrl ty m x :
  In x (instances (mapSet key (ctrl, ty) m)) ->
  x = ctrl \/ In x (instances m).
Proof.
  induction m as [| [k [i t]] m IH]; simpl.
  - intros [<- | []]. auto.
  - destruct (String.eqb k key); simpl.
    + intros [<- | H]; auto.
    + intros [<- | H]; auto. destruct (IH H); auto.
Qed.

Lemma instances_mapSet_new key ctrl ty m :
  In ctrl (instances (mapSet key (ctrl, ty) m)).
Proof.
  induction m as [| [k [i t]] m IH]; simpl; [auto |].
  destruct (String.eqb k key); simpl; auto.
Qed.

Lemma instances_mapSet_NoDup key ctrl ty m :
  NoDup (instances m) -> ~ In ctrl (instances m) ->
  NoDup (instances (mapSet key (ctrl, ty) m)).
Proof.
  induction m as [| [k [i t]] m IH]; simpl; intros Hnd Hni.
  - constructor; [intros [] | constructor].
  - inversion Hnd as [| ? ? Hi Hnd']; subst.
    destruct (String.eqb k key); simpl.
    + constructor; [| assumption]. intros H. apply Hni. right. exact H.
    + constructor.
      * intros H. apply instances_mapSet_in in H. destruct H as [-> | H].
        -- apply Hni. left. reflexivity.
        -- contradiction.
      * apply IH; [assumption |]. intros H. apply Hni. right. exact H.
Qed.

Lemma mapGet_instances key m ctrl ty :
  mapGet key m = Some (ctrl, ty) -> In ctrl (instances m).
Proof.
  induction m as [| [k [i t]] m IH]; simpl; [discriminate |].
  destruct (String.eqb k key).
  - intros H. injection H as -> ->. auto.
  - auto.
Qed.

End MapFacts.

Section ManagerFacts.
Import Js Runtime.

Lemma lastState_cons s states d :
  lastState (s :: states) d = lastState states s.
Proof.
  unfold lastState. revert s d.
  induction states as [| s' states IH]; intros s d.
  - reflexivity.
  - change (last (s :: s' :: states) d) with (last (s' :: states) d).
    rewrite (IH s' d), (IH s' s). reflexivity.
Qed.

Lemma managerEmitsAll_subscribed states c m :
  _subscribed c = true -> _controllers c = Some m ->
  managerEmitsAll states c =
  mkContainer (Some m) (_isShutdown c) true
    (lastState states (managerState c)) (nextInstance c)
    (calls c ++ dispatchAll states (instances m)).
Proof.
  revert c. induction states as [| s states IH]; intros c Hs Hm.
  - simpl. rewrite app_nil_r. destruct c; simpl in *. congruence.
  - change (managerEmitsAll (s :: states) c)
      with (managerEmitsAll states (managerEmits s c)).
    assert (E : managerEmits s c =
                mkContainer (Some m) (_isShutdown c) true s (nextInstance c)
                  (calls c ++ flat_map (_dispatchOperatingState s) (instances m))).
    { unfold managerEmits, logCalls, operatingStateObserver. rewrite Hs.
      simpl. rewrite Hm. reflexivity. }
    rewrite E. rewrite IH by reflexivity.
    cbn [managerState nextInstance calls _isShutdown].
    rewrite lastState_cons, <- app_assoc. reflexivity.
Qed.

Lemma managerEmitsAll_unsubscribed states c :
  _subscribed c = false ->
  managerEmitsAll states c =
  mkContainer (_controllers c) (_isShutdown c) false
    (lastState states (managerState c)) (nextInstance c) (calls c).
Proof.
  revert c. induction states as [| s states IH]; intros c Hs.
  - simpl. destruct c; simpl in *. congruence.
  - change (managerEmitsAll (s :: states) c)
      with (managerEmitsAll states (managerEmits s c)).
    assert (E : managerEmits s c =
                mkContainer (_controllers c) (_isShutdown c) false s
                  (nextInstance c) (calls c)).
    { unfold managerEmits. rewrite Hs. rewrite <- Hs. reflexivity. }
    rewrite E. rewrite IH by reflexivity.
    cbn [managerState nextInstance calls _isShutdown _controllers].
    rewrite lastState_cons. reflexivity.
Qed.

End ManagerFacts.

Section ReadyFacts.
Import Js Runtime.

Lemma callbacksOf_own ctrl cbs :
  callbacksOf ctrl (map (ControllerCall ctrl) cbs) = cbs.
Proof.
  induction cbs as [| cb cbs IH]; simpl; [reflexivity |].
  rewrite Nat.eqb_refl, IH. reflexivity.
Qed.

Lemma callbacksOf_foreign ctrl other cbs :
  other <> ctrl -> callbacksOf ctrl (map (ControllerCall other) cbs) = [].
Proof.
  intros Hne. induction cbs as [| cb cbs IH]; simpl; [reflexivity |].
  apply Nat.eqb_neq in Hne. rewrite Hne. exact IH.
Qed.

(** Logging calls that move every controller of the map from phase [p] to
    phase [p'] and touch no other instance. *)
Lemma Ready_extend p p' c m extra sub st :
  Ready p c -> _controllers c = Some m ->
  forallb quietCall extra = true ->
  (forall ctrl, In ctrl (instances m) ->
     phaseAfter p (callbacksOf ctrl extra) = Some p') ->
  (forall ctrl, ~ In ctrl (instances m) -> callbacksOf ctrl extra = []) ->
  Ready p' (mkContainer (Some m) (_isShutdown c) sub st (nextInstance c)
              (calls c ++ extra)).
Proof.
  intros (Hlive & (m' & Hm' & Hnd & Hmem) & Hord & Hfresh & Hquiet)
    Hm Hq Hin Hout.
  assert (m' = m) by congruence. subst m'.
  unfold Ready. cbn [_isShutdown _controllers nextInstance calls].
  split; [assumption |]. split; [| split; [| split]].
  - exists m. split; [reflexivity |]. split; [assumption |].
    intros ctrl Hc. destruct (Hmem ctrl Hc) as [Hlt Hp].
    split; [assumption |].
    rewrite callbacksOf_app, phaseAfter_app, Hp. auto.
  - intros ctrl. rewrite callbacksOf_app.
    destruct (in_dec Nat.eq_dec ctrl (instances m)) as [Hc | Hc].
    + destruct (Hmem ctrl Hc) as [_ Hp].
      apply inLifeOrder_phase with (p := p').
      rewrite phaseAfter_app, Hp. auto.
    + rewrite (Hout ctrl Hc), app_nil_r. apply Hord.
  - intros ctrl Hge. rewrite callbacksOf_app, (Hfresh ctrl Hge).
    apply Hout. intros Hc. destruct (Hmem ctrl Hc) as [Hlt _]. lia.
  - rewrite forallb_app, Hquiet, Hq. reflexivity.
Qed.

(** Registering a freshly allocated controller that has received [cbs]. *)
Lemma Ready_add p c m controllerName ty cbs sub st :
  Ready p c -> _controllers c = Some m ->
  phaseAfter Fresh cbs = Some p ->
  forallb quietCall (map (ControllerCall (nextInstance c)) cbs) = true ->
  Ready p (mkContainer
             (Some (mapSet controllerName (nextInstance c, ty) m))
             (_isShutdown c) sub st (S (nextInstance c))
             (calls c ++ map (ControllerCall (nextInstance c)) cbs)).
Proof.
  intros (Hlive & (m' & Hm' & Hnd & Hmem) & Hord & Hfresh & Hquiet)
    Hm Hp Hq.
  assert (m' = m) by congruence. subst m'.
  assert (Hnew : ~ In (nextInstance c) (instances m)).
  { intros Hc. destruct (Hmem _ Hc) as [Hlt _]. lia. }
  unfold Ready. cbn [_isShutdown _controllers nextInstance calls].
  split; [assumption |]. split; [| split; [| split]].
  - eexists. split; [reflexivity |].
    split; [apply instances_mapSet_NoDup; assumption |].
    intros ctrl Hc. apply instances_mapSet_in in Hc.
    rewrite callbacksOf_app. destruct Hc as [-> | Hc].
    + split; [lia |].
      rewrite (Hfresh (nextInstance c)), callbacksOf_own by lia. exact Hp.
    + destruct (Hmem ctrl Hc) as [Hlt Hpc]. split; [lia |].
      rewrite callbacksOf_foreign, app_nil_r by lia. exact Hpc.
  - intros ctrl. rewrite callbacksOf_app.
    destruct (Nat.eq_dec (nextInstance c) ctrl) as [<- | Hne].
    + rewrite (Hfresh (nextInstance c)), callbacksOf_own by lia.
      apply inLifeOrder_phase with (p := p). exact Hp.
    + rewrite callbacksOf_foreign, app_nil_r by assumption. apply Hord.
  - intros ctrl Hge.
    rewrite callbacksOf_app, (Hfresh ctrl), callbacksOf_foreign by lia.
    reflexivity.
  - rewrite forallb_app, Hquiet, Hq. reflexivity.
Qed.

(** Fields that [Ready] does not read may change freely. *)
Lemma Ready_fields p c m sub st :
  Ready p c -> _controllers c = Some m ->
  Ready p (mkContainer (Some m) (_isShutdown c) sub st (nextInstance c)
             (calls c)).
Proof.
  intros (Hlive & (m' & Hm' & Hnd & Hmem) & Hord & Hfresh & Hquiet) Hm.
  assert (m' = m) by congruence. subst m'.
  unfold Ready. cbn [_isShutdown _controllers nextInstance calls].
  repeat split; try assumption.
  exists m. repeat split; try assumption; apply Hmem; assumption.
Qed.

Lemma Ready_logCalls p p' c m extra :
  Ready p c -> _controllers c = Some m ->
  forallb quietCall extra = true ->
  (forall ctrl, In ctrl (instances m) ->
     phaseAfter p (callbacksOf ctrl extra) = Some p') ->
  (forall ctrl, ~ In ctrl (instances m) -> callbacksOf ctrl extra = []) ->
  Ready p' (logCalls extra c).
Proof.
  intros Hr Hm Hq Hin Hout. unfold logCalls. rewrite Hm.
  apply Ready_extend with (p := p); assumption.
Qed.

Lemma Ready_map p c : Ready p c -> exists m, _controllers c = Some m.
Proof. intros (_ & (m & Hm & _) & _). eauto. Qed.

Lemma Ready_NoDup p c m :
  Ready p c -> _controllers c = Some m -> NoDup (instances m).
Proof.
  intros (_ & (m' & Hm' & Hnd & _) & _) Hm. congruence.
Qed.

Lemma Ready_emits c states :
  Ready Resolved c ->
  Ready Resolved (managerEmitsAll states c)
  /\ _subscribed (managerEmitsAll states c) = _subscribed c
  /\ _controllers (managerEmitsAll states c) = _controllers c.
Proof.
  intros Hr. destruct (Ready_map _ _ Hr) as [m Hm].
  destruct (_subscribed c) eqn:Hs.
  - rewrite (managerEmitsAll_subscribed _ _ _ Hs Hm).
    split; [| split; [reflexivity | symmetry; exact Hm]].
    apply Ready_extend with (p := Resolved); try assumption.
    + apply quiet_dispatchAll.
    + intros ctrl Hc.
      rewrite callbacksOf_dispatchAll_in;
        [apply phaseAfter_notifications | | assumption].
      exact (Ready_NoDup _ _ _ Hr Hm).
    + intros ctrl Hc. apply callbacksOf_dispatchAll_notin. assumption.
  - rewrite (managerEmitsAll_unsubscribed _ _ Hs).
    split; [| split; reflexivity].
    rewrite Hm. apply Ready_fields; assumption.
Qed.

End ReadyFacts.

Section ContainerFacts.
Import Js Runtime.

Variable startEmits : OperatingState -> list OperatingState.
Variable disposeEmits : OperatingState -> list OperatingState.

(** What [_resolveController] does for a usable name and class. *)
Lemma resolveController_new controllerName ty c m :
  controllerName <> "" -> _controllers c = Some m ->
  _resolveController controllerName (Some ty) c =
  Normal (mkContainer (Some (mapSet controllerName (nextInstance c, ty) m))
            (_isShutdown c) (_subscribed c) (managerState c)
            (S (nextInstance c))
            (calls c ++ map (ControllerCall (nextInstance c)) [OnInit]),
          Some (nextInstance c)).
Proof.
  intros Hn Hm. unfold _resolveController.
  apply String.eqb_neq in Hn. rewrite Hn, Hm. reflexivity.
Qed.

Lemma resolveController_skip controllerName controllerType c :
  controllerName = "" \/ controllerType = None ->
  _resolveController controllerName controllerType c = Normal (c, None).
Proof.
  unfold _resolveController. intros [-> | ->]; [| reflexivity].
  destruct controllerType; reflexivity.
Qed.

Lemma resolveController_cases
    (controllerName : string) (controllerType : option ControllerType) :
  (controllerName = "" \/ controllerType = None)
  \/ (controllerName <> "" /\ exists ty, controllerType = Some ty).
Proof.
  destruct controllerType as [ty |]; [| auto].
  destruct (String.string_dec controllerName ""); eauto.
Qed.

Lemma resolveAll_Ready entries c :
  Ready Initialised c ->
  exists c', resolveAll entries c = Normal c'
    /\ Ready Initialised c'
    /\ _subscribed c' = _subscribed c
    /\ managerState c' = managerState c.
Proof.
  revert c. induction entries as [| [controllerName controllerType] entries IH];
    intros c Hr.
  - exists c. auto.
  - cbn [resolveAll].
    destruct (resolveController_cases controllerName controllerType)
      as [Hskip | [Hn [ty ->]]].
    + rewrite (resolveController_skip _ _ c Hskip). cbn [bind fst].
      apply IH. assumption.
    + destruct (Ready_map _ _ Hr) as [m Hm].
      rewrite (resolveController_new _ ty _ _ Hn Hm). cbn [bind fst].
      match goal with
      | |- context [resolveAll entries ?c1] =>
          destruct (IH c1) as (c' & Hc' & Hr' & Hs' & Hst')
      end.
      * apply Ready_add with (cbs := [OnInit]); try assumption; reflexivity.
      * exists c'. auto.
Qed.

Lemma Ready_newContainer : Ready Initialised newContainer.
Proof.
  unfold Ready, newContainer. simpl. repeat split; try reflexivity.
  exists []. repeat split; try constructor; contradiction.
Qed.

(** Every container that [resolve] returns is subscribed to its manager and
    has all its controllers resolved. *)
Lemma resolve_Ready components configuration configTransformer c0 :
  resolve startEmits components configuration configTransformer = Normal c0 ->
  Ready Resolved c0 /\ _subscribed c0 = true.
Proof.
  unfold resolve, _resolveComponents.
  destruct (match configTransformer with
            | Some f => f configuration
            | None => configuration
            end) as [cfg |]; [| discriminate].
  set (entries := controllers match components with
                              | Some cs => cs
                              | None => mkComponents None
                              end).
  assert (H1 : exists c1,
             match entries with
             | Some es => resolveAll es newContainer
             | None => Normal newContainer
             end = Normal c1
             /\ Ready Initialised c1).
  { destruct entries as [es |].
    - destruct (resolveAll_Ready es _ Ready_newContainer)
        as (c1 & Hc1 & Hr1 & _). eauto.
    - exists newContainer. split; [reflexivity | apply Ready_newContainer]. }
  destruct H1 as (c1 & -> & Hr1). cbn [bind].
  destruct (Ready_map _ _ Hr1) as [m Hm]. rewrite Hm. cbv zeta.
  pose proof (Ready_NoDup _ _ _ Hr1 Hm) as Hnd.
  set (c2 := logCalls _ c1).
  assert (Hr2 : Ready Resolved c2 /\ _controllers c2 = Some m).
  { split; [| exact Hm].
    apply Ready_logCalls with (p := Initialised) (m := m); try assumption.
    - clear. induction (instances m); simpl; auto.
    - intros ctrl Hc. rewrite callbacksOf_forEach_in by assumption.
      reflexivity.
    - intros ctrl Hc. apply callbacksOf_forEach_notin. assumption. }
  destruct Hr2 as [Hr2 Hm2].
  set (c3 := mkContainer (_controllers c2) (_isShutdown c2) true
               (managerState c2) (nextInstance c2) (calls c2)).
  assert (Hr3 : Ready Resolved c3).
  { unfold c3. rewrite Hm2. apply Ready_fields; assumption. }
  set (c4 := logCalls (operatingStateObserver (managerState c3) c3) c3).
  assert (Hr4 : Ready Resolved c4).
  { unfold c4, operatingStateObserver.
    replace (_controllers c3) with (Some m) by (symmetry; exact Hm2).
    apply Ready_logCalls with (p := Resolved) (m := m);
      try assumption.
    - replace (flat_map (_dispatchOperatingState (managerState c3)) (instances m))
        with (dispatchAll [managerState c3] (instances m))
        by (unfold dispatchAll; simpl; apply app_nil_r).
      apply quiet_dispatchAll.
    - intros ctrl Hc. rewrite callbacksOf_dispatch_in by assumption.
      destruct (managerState c3); reflexivity.
    - intros ctrl Hc. apply callbacksOf_dispatch_notin. assumption. }
  destruct (shouldAutoStart cfg); intros H; injection H as <-.
  - match goal with
    | |- context [managerEmitsAll ?states ?c] =>
        destruct (Ready_emits c states) as (Hr & Hs & _)
    end.
    + destruct (Ready_map _ _ Hr4) as [m4 Hm4].
      apply Ready_logCalls with (p := Resolved) (m := m4);
        try assumption; reflexivity.
    + split; [exact Hr | rewrite Hs; reflexivity].
  - split; [exact Hr4 | reflexivity].
Qed.

Lemma registerController_Ready controllerName controllerType c :
  Ready Resolved c ->
  exists c' r,
    registerController controllerName controllerType c = Normal (c', r)
    /\ Ready Resolved c' /\ _subscribed c' = _subscribed c.
Proof.
  intros Hr. pose proof Hr as (Hlive & _).
  unfold registerController. rewrite Hlive.
  destruct (resolveController_cases controllerName controllerType)
    as [Hskip | [Hn [ty ->]]].
  - rewrite (resolveController_skip _ _ c Hskip). cbn [bind snd fst].
    exists c, None. auto.
  - destruct (Ready_map _ _ Hr) as [m Hm].
    rewrite (resolveController_new _ ty _ _ Hn Hm). cbn [bind snd fst].
    unfold logCalls.
    cbn [_controllers _isShutdown _subscribed managerState nextInstance calls].
    destruct (managerState c); eexists; eexists;
      (split; [reflexivity |]); (split; [| reflexivity]);
      cbn [_controllers _isShutdown _subscribed managerState nextInstance
           calls _dispatchOperatingState];
      rewrite <- ?app_assoc;
      solve
        [ apply Ready_add
            with (cbs := [OnInit; OnContainerResolved]);
            try assumption; reflexivity
        | apply Ready_add
            with (cbs := [OnInit; OnContainerResolved;
                          OnCommunicationManagerStarting]);
            try assumption; reflexivity ].
Qed.

(** What [shutdown] does to a live container. *)
Lemma shutdown_live c m :
  _isShutdown c = false -> _subscribed c = true -> _controllers c = Some m ->
  shutdown disposeEmits c =
  Normal (mkContainer None true false
            (lastState (disposeEmits (managerState c)) (managerState c))
            (nextInstance c)
            (calls c ++ [ManagerDispose]
             ++ dispatchAll (disposeEmits (managerState c)) (instances m)
             ++ map (fun ctrl => ControllerCall ctrl OnDispose) (instances m))).
Proof.
  intros Hlive Hs Hm. unfold shutdown, _releaseComponents. rewrite Hlive.
  cbn [managerState].
  rewrite (managerEmitsAll_subscribed _ _ m) by assumption.
  unfold logCalls.
  cbn [_controllers _isShutdown _subscribed managerState nextInstance calls].
  rewrite <- !app_assoc. reflexivity.
Qed.

Lemma shutdown_released c :
  _isShutdown c = true -> shutdown disposeEmits c = Normal c.
Proof. intros H. unfold shutdown. rewrite H. reflexivity. Qed.

Lemma LifeOrdered_shutdown c m states :
  Ready Resolved c -> _controllers c = Some m ->
  LifeOrdered
    (calls c ++ [ManagerDispose] ++ dispatchAll states (instances m)
     ++ map (fun ctrl => ControllerCall ctrl OnDispose) (instances m)).
Proof.
  intros Hr Hm. pose proof (Ready_NoDup _ _ _ Hr Hm) as Hnd.
  destruct Hr as (Hlive & (m' & Hm' & _ & Hmem) & Hord & Hfresh & Hquiet).
  assert (m' = m) by congruence. subst m'.
  split.
  - intros ctrl. rewrite !callbacksOf_app.
    destruct (in_dec Nat.eq_dec ctrl (instances m)) as [Hc | Hc].
    + destruct (Hmem ctrl Hc) as [_ Hp].
      rewrite callbacksOf_dispatchAll_in, callbacksOf_forEach_in by assumption.
      apply inLifeOrder_phase with (p := Disposed).
      rewrite phaseAfter_app, Hp. cbn [callbacksOf app].
      rewrite app_nil_l, phaseAfter_app, phaseAfter_notifications.
      reflexivity.
    + rewrite callbacksOf_dispatchAll_notin, callbacksOf_forEach_notin
        by assumption.
      cbn [callbacksOf app]. rewrite app_nil_r. apply Hord.
  - rewrite disposesAfterManager_quiet by assumption.
    apply disposesAfterManager_seen.
Qed.

Lemma LifeOrdered_Ready p c : Ready p c -> LifeOrdered (calls c).
Proof.
  intros (_ & _ & Hord & _ & Hquiet). split; [exact Hord |].
  rewrite <- (app_nil_r (calls c)).
  rewrite disposesAfterManager_quiet by assumption. reflexivity.
Qed.

Lemma Invariant_LifeOrdered c : Invariant c -> LifeOrdered (calls c).
Proof.
  intros [[Hr _] | [_ H]]; [exact (LifeOrdered_Ready _ _ Hr) | exact H].
Qed.

Lemma step_Invariant op c :
  Invariant c ->
  exists c', step disposeEmits op c = Normal c' /\ Invariant c'.
Proof.
  intros [[Hr Hs] | [(Hsd & Hsub & Hmap) Hlo]].
  - destruct op as [controllerName controllerType | state |]; cbn [step].
    + destruct (registerController_Ready controllerName controllerType c Hr)
        as (c' & r & -> & Hr' & Hs').
      cbn [bind fst]. exists c'. split; [reflexivity |].
      left. split; [assumption | congruence].
    + eexists. split; [reflexivity |].
      destruct (Ready_emits c [state] Hr) as (Hr' & Hs' & _).
      left. split; [exact Hr' | rewrite <- Hs; exact Hs'].
    + destruct (Ready_map _ _ Hr) as [m Hm]. pose proof Hr as (Hlive & _).
      rewrite (shutdown_live c m Hlive Hs Hm).
      eexists. split; [reflexivity |]. right.
      split; [repeat split |]. cbn [calls].
      apply LifeOrdered_shutdown; assumption.
  - destruct op as [controllerName controllerType | state |]; cbn [step].
    + unfold registerController. rewrite Hsd. cbn [bind fst].
      exists c. split; [reflexivity |]. right.
      split; [repeat split; assumption | exact Hlo].
    + eexists. split; [reflexivity |]. right.
      unfold managerEmits. rewrite Hsub.
      split; [repeat split; assumption | exact Hlo].
    + rewrite (shutdown_released c Hsd).
      exists c. split; [reflexivity |]. right.
      split; [repeat split; assumption | exact Hlo].
Qed.

Lemma run_Invariant ops c :
  Invariant c ->
  exists c', run disposeEmits ops c = Normal c' /\ Invariant c'.
Proof.
  revert c. induction ops as [| op ops IH]; intros c Hinv.
  - exists c. auto.
  - cbn [run]. destruct (step_Invariant op c Hinv) as (c1 & -> & Hinv1).
    cbn [bind]. apply IH. assumption.
Qed.

Lemma run_app ops1 ops2 c :
  run disposeEmits (ops1 ++ ops2) c =
  bind (run disposeEmits ops1 c) (run disposeEmits ops2).
Proof.
  revert c. induction ops1 as [| op ops1 IH]; intros c; [reflexivity |].
  change ((op :: ops1) ++ ops2) with (op :: (ops1 ++ ops2)).
  cbn [run]. destruct (step disposeEmits op c); cbn [bind];
    [apply IH | reflexivity].
Qed.

Lemma run_emits states c :
  run disposeEmits (map ManagerEmits states) c
  = Normal (managerEmitsAll states c).
Proof.
  revert c. induction states as [| s states IH]; intros c; [reflexivity |].
  cbn [run map step bind]. apply IH.
Qed.

Lemma lastState_app l1 l2 d :
  lastState (l1 ++ l2) d = lastState l2 (lastState l1 d).
Proof.
  revert d. induction l1 as [| s l1 IH]; intros d; [reflexivity |].
  change ((s :: l1) ++ l2) with (s :: (l1 ++ l2)).
  rewrite !lastState_cons. apply IH.
Qed.

(** Resolving the controllers of [Components]: all controllers of the map
    have received [onInit] and nothing else, and every usable entry is
    registered under its name. *)
Lemma resolveAll_Uniform entries c m :
  Ready Initialised c -> Uniform [OnInit] m c ->
  exists c' m',
    resolveAll entries c = Normal c'
    /\ Ready Initialised c' /\ Uniform [OnInit] m' c'
    /\ _subscribed c' = _subscribed c
    /\ managerState c' = managerState c
    /\ (forall controllerName,
          mapGet controllerName m <> None -> mapGet controllerName m' <> None)
    /\ (forall controllerName ty,
          In (controllerName, Some ty) entries -> controllerName <> "" ->
          mapGet controllerName m' <> None).
Proof.
  revert c m.
  induction entries as [| [controllerName controllerType] entries IH];
    intros c m Hr Hu.
  - exists c, m. cbn [resolveAll In].
    split; [reflexivity |]. split; [assumption |]. split; [assumption |].
    split; [reflexivity |]. split; [reflexivity |].
    split; [auto | contradiction].
  - cbn [resolveAll].
    destruct (resolveController_cases controllerName controllerType)
      as [Hskip | [Hn [ty ->]]].
    + rewrite (resolveController_skip _ _ c Hskip). cbn [bind fst].
      destruct (IH c m Hr Hu) as (c' & m' & Hc' & Hr' & Hu' & Hs' & Hst' & Hk & Hnew).
      exists c', m'. splits; try assumption.
      intros name ty [E | Hin] Hne; [| eauto].
      injection E as -> ->. destruct Hskip; congruence.
    + destruct Hu as [Hm Hu].
      rewrite (resolveController_new _ ty _ _ Hn Hm). cbn [bind fst].
      match goal with
      | |- context [resolveAll entries ?c1] =>
          destruct (IH c1 (mapSet controllerName (nextInstance c, ty) m))
            as (c' & m' & Hc' & Hr' & Hu' & Hs' & Hst' & Hk & Hnew)
      end.
      * apply Ready_add with (cbs := [OnInit]); try assumption; reflexivity.
      * split; [reflexivity |]. cbn [calls].
        intros ctrl Hc. rewrite callbacksOf_app.
        destruct Hr as (_ & (m1 & Hm1 & _ & Hmem) & _ & Hfresh & _).
        assert (m1 = m) by congruence. subst m1.
        apply instances_mapSet_in in Hc. destruct Hc as [-> | Hc].
        -- rewrite (Hfresh (nextInstance c)), callbacksOf_own by lia.
           reflexivity.
        -- destruct (Hmem ctrl Hc) as [Hlt _].
           rewrite (Hu ctrl Hc), callbacksOf_foreign by lia. reflexivity.
      * exists c', m'. splits; try assumption.
        -- intros name Hg. apply Hk.
           destruct (String.string_dec controllerName name) as [<- | Hne].
           ++ rewrite mapGet_mapSet_same. discriminate.
           ++ rewrite mapGet_mapSet_other by assumption. exact Hg.
        -- intros name ty' [E | Hin] Hne; [| eauto].
           injection E as -> ->. apply Hk.
           rewrite mapGet_mapSet_same. discriminate.
Qed.

Lemma Uniform_newContainer : Uniform [OnInit] [] newContainer.
Proof. split; [reflexivity | intros ctrl []]. Qed.

(** The container [resolve] returns for a given configuration: every usable
    entry of [Components] is registered, and each registered controller has
    received [onInit], [onContainerResolved] and the notifications of the
    states the manager ran through inside [start()]. *)
Lemma resolve_standard entries autoStart :
  exists c0 m0,
    resolve startEmits (Some (mkComponents (Some entries)))
      (Some (mkConfiguration autoStart)) None = Normal c0
    /\ Uniform ([OnInit; OnContainerResolved] ++
                notifications (if autoStart then startEmits Initial else []))
         m0 c0
    /\ NoDup (instances m0)
    /\ managerState c0
       = lastState (if autoStart then startEmits Initial else []) Initial
    /\ (forall controllerName ty,
          In (controllerName, Some ty) entries -> controllerName <> "" ->
          mapGet controllerName m0 <> None).
Proof.
  destruct (resolveAll_Uniform entries newContainer [] Ready_newContainer
              Uniform_newContainer)
    as (c1 & m & Hc1 & Hr1 & [Hm Hu1] & Hs1 & Hst1 & _ & Hnew).
  pose proof (Ready_NoDup _ _ _ Hr1 Hm) as Hnd.
  cbn [managerState newContainer] in Hst1.
  unfold resolve, _resolveComponents. cbn [controllers shouldAutoStart].
  rewrite Hc1. cbn [bind]. rewrite Hm. cbv zeta.
  set (c2 := logCalls _ c1).
  assert (E2 : c2 = mkContainer (Some m) (_isShutdown c1) (_subscribed c1)
                      Initial (nextInstance c1)
                      (calls c1 ++
                       map (fun ctrl => ControllerCall ctrl OnContainerResolved)
                         (instances m))).
  { unfold c2, logCalls. rewrite Hm, Hst1. reflexivity. }
  clearbody c2. subst c2.
  cbn [_controllers _isShutdown _subscribed managerState nextInstance calls].
  unfold operatingStateObserver. cbn [_controllers].
  rewrite dispatch_forEach. unfold logCalls.
  cbn [_controllers _isShutdown _subscribed managerState nextInstance calls].
  rewrite app_nil_r.
  destruct autoStart.
  - rewrite (managerEmitsAll_subscribed _ _ m) by reflexivity.
    cbn [_controllers _isShutdown _subscribed managerState nextInstance calls].
    eexists. exists m. split; [reflexivity |].
    cbn [managerState]. splits; try assumption; try reflexivity.
    split; [reflexivity |]. cbn [calls].
    intros ctrl Hc.
    rewrite !callbacksOf_app, (Hu1 ctrl Hc), callbacksOf_forEach_in,
      callbacksOf_dispatchAll_in by assumption.
    reflexivity.
  - eexists. exists m. split; [reflexivity |].
    cbn [managerState]. splits; try assumption; try reflexivity.
    split; [reflexivity |]. cbn [calls].
    intros ctrl Hc.
    rewrite !callbacksOf_app, (Hu1 ctrl Hc), callbacksOf_forEach_in
      by assumption.
    reflexivity.
Qed.

(** [resolve] throws only for a missing configuration. *)
Lemma resolve_defined components configuration configTransformer :
  (resolve startEmits components configuration configTransformer
   = Throw (Error "Container: Configuration is not defined")
   /\ match configTransformer with
      | Some f => f configuration
      | None => configuration
      end = None)
  \/ exists c0,
       resolve startEmits components configuration configTransformer
       = Normal c0.
Proof.
  unfold resolve, _resolveComponents.
  destruct (match configTransformer with
            | Some f => f configuration
            | None => configuration
            end) as [cfg |]; [right | left; auto].
  destruct (controllers match components with
                        | Some cs => cs
                        | None => mkComponents None
                        end) as [es |].
  - destruct (resolveAll_Ready es _ Ready_newContainer) as (c1 & -> & _).
    cbn [bind]. destruct (shouldAutoStart cfg); eexists; reflexivity.
  - cbn [bind]. destruct (shouldAutoStart cfg); eexists; reflexivity.
Qed.

(** C9. The container calls the lifecycle methods of every controller in
    life-order.  (a) [resolve] throws only for a missing configuration;
    on the container it returns, every sequence of [registerController]
    calls, state changes of the communication manager and [shutdown] calls
    runs without exception, and in the resulting log every controller
    instance has received [onInit], then [onContainerResolved], then
    operating-state notifications, then [onDispose] and nothing after it,
    with every [onDispose] of a controller after the manager's.  (b) When a
    container is resolved, the manager changes state and the container is
    shut down, each registered controller receives exactly [onInit],
    [onContainerResolved], one [onCommunicationManagerStarting] for each
    [Starting] and one [onCommunicationManagerStopping] for each [Stopping]
    the manager enters, in the manager's order and including the states it
    runs through while being disposed, and finally [onDispose]. *)
Theorem controller_callbacks_in_life_order
    (components : option Components) (configuration : option Configuration)
    (configTransformer : option (option Configuration -> option Configuration))
    (ops : list Op)
    (entries : list (string * option ControllerType)) (autoStart : bool)
    (states : list OperatingState) :
  (raises (resolve startEmits components configuration configTransformer)
     /\ match configTransformer with
        | Some f => f configuration
        | None => configuration
        end = None
   \/ exists c0 c,
        resolve startEmits components configuration configTransformer
        = Normal c0
        /\ run disposeEmits ops c0 = Normal c
        /\ LifeOrdered (calls c))
  /\ (let started := if autoStart then startEmits Initial else [] in
      let disposed := disposeEmits (lastState (started ++ states) Initial) in
      exists c0 c,
        resolve startEmits (Some (mkComponents (Some entries)))
          (Some (mkConfiguration autoStart)) None = Normal c0
        /\ run disposeEmits (map ManagerEmits states ++ [Shutdown]) c0
           = Normal c
        /\ (forall controllerName ty,
              In (controllerName, Some ty) entries -> controllerName <> "" ->
              registered c0 controllerName <> None)
        /\ (forall controllerName ctrl ty,
              registered c0 controllerName = Some (ctrl, ty) ->
              callbacksOf ctrl (calls c) =
              [OnInit; OnContainerResolved]
              ++ notifications (started ++ states ++ disposed)
              ++ [OnDispose])).
Proof.
  split.
  - destruct (resolve_defined components configuration configTransformer)
      as [[E Hcfg] | [c0 E]].
    + left. split; [eexists; exact E | exact Hcfg].
    + right. destruct (resolve_Ready _ _ _ _ E) as [Hr Hs].
      destruct (run_Invariant ops c0) as (c & Hrun & Hinv);
        [left; auto |].
      exists c0, c. splits; try assumption.
      apply Invariant_LifeOrdered. assumption.
  - intros started disposed.
    destruct (resolve_standard entries autoStart)
      as (c0 & m0 & E & [Hm0 Hu] & Hnd & Hst & Hreg).
    fold started in Hu, Hst.
    destruct (resolve_Ready _ _ _ _ E) as [Hr Hs].
    pose proof Hr as (Hlive & _).
    exists c0. eexists. split; [exact E |]. split; [| split].
    + rewrite run_app, run_emits. cbn [bind run step].
      rewrite (managerEmitsAll_subscribed _ _ m0) by assumption.
      rewrite (shutdown_live _ m0) by (assumption || reflexivity).
      cbn [bind]. reflexivity.
    + intros controllerName ty Hin Hne. unfold registered. rewrite Hm0.
      eauto.
    + intros controllerName ctrl ty Hg. unfold registered in Hg.
      rewrite Hm0 in Hg. apply mapGet_instances in Hg.
      cbn [calls managerState nextInstance].
      rewrite !callbacksOf_app, (Hu ctrl Hg),
        !callbacksOf_dispatchAll_in, callbacksOf_forEach_in by assumption.
      cbn [callbacksOf]. rewrite Hst, <- lastState_app.
      fold disposed. rewrite !notifications_app, <- !app_assoc.
      reflexivity.
Qed.

(** After [shutdown] the container has no map and [getController] answers
    [undefined] for every name. *)
Lemma getController_released c controllerName :
  Released c -> getController c controllerName = Normal None.
Proof.
  intros (_ & _ & Hm). unfold getController. rewrite Hm. reflexivity.
Qed.

(** C10. On a container that has not been shut down, [getController]
    returns the controller instance registered under the name, if there is
    one, and the instance [registerController] has just returned for it; for
    a name without a registered controller the lookup [get(name)[0]] reads
    index 0 of [undefined], so the call throws a [TypeError] and does not
    return [undefined]. *)
Theorem getController_registered_or_throws
    (components : option Components) (configuration : option Configuration)
    (configTransformer : option (option Configuration -> option Configuration))
    (ops : list Op) (c0 c : Container) (controllerName : string) :
  resolve startEmits components configuration configTransformer = Normal c0 ->
  run disposeEmits ops c0 = Normal c ->
  _isShutdown c = false ->
  (forall ctrl ty,
     registered c controllerName = Some (ctrl, ty) ->
     getController c controllerName = Normal (Some ctrl))
  /\ (forall ty c' ctrl,
        registerController controllerName (Some ty) c = Normal (c', Some ctrl) ->
        getController c' controllerName = Normal (Some ctrl))
  /\ (registered c controllerName = None ->
      raisesTypeError (getController c controllerName)
      /\ getController c controllerName <> Normal None).
Proof.
  intros E Hrun Hlive.
  destruct (resolve_Ready _ _ _ _ E) as [Hr0 Hs0].
  destruct (run_Invariant ops c0) as (c' & Hrun' & Hinv); [left; auto |].
  assert (c' = c) by congruence. subst c'.
  destruct Hinv as [[Hr Hs] | [(Hsd & _) _]]; [| congruence].
  destruct (Ready_map _ _ Hr) as [m Hm].
  unfold registered, getController. rewrite Hm. splits.
  - intros ctrl ty ->. reflexivity.
  - intros ty c' ctrl. unfold registerController. rewrite Hlive.
    destruct (String.string_dec controllerName "") as [-> | Hn];
      [discriminate |].
    rewrite (resolveController_new _ ty _ _ Hn Hm). cbn [bind snd fst].
    unfold logCalls.
    cbn [_controllers _isShutdown _subscribed managerState nextInstance calls].
    intros H.
    assert (Hc' : _controllers c'
                  = Some (mapSet controllerName (nextInstance c, ty) m)
                  /\ ctrl = nextInstance c).
    { destruct (managerState c); injection H as <- <-; auto. }
    destruct Hc' as [-> ->]. rewrite mapGet_mapSet_same. reflexivity.
  - intros ->. split; [eexists; reflexivity | discriminate].
Qed.

End ContainerFacts.

(** With a communication manager that behaves as specified, a container
    that is resolved with auto-start, goes online and is shut down calls
    each controller exactly five times, in life-order. *)
Lemma controller_callbacks_in_life_order_witness :
  exists c,
    Runtime.run Runtime.specDisposeEmits
      [Runtime.ManagerEmits Runtime.Started; Runtime.Shutdown]
      Runtime.fixtureContainer = Js.Normal c
    /\ forall ctrl, ctrl < 2 ->
       Runtime.callbacksOf ctrl (Runtime.calls c) =
       [Runtime.OnInit; Runtime.OnContainerResolved;
        Runtime.OnCommunicationManagerStarting;
        Runtime.OnCommunicationManagerStopping; Runtime.OnDispose].
Proof.
  destruct (proj2 (controller_callbacks_in_life_order
                     Runtime.specStartEmits Runtime.specDisposeEmits
                     None None None []
                     [("MockObjectController", Some 0);
                      ("MockOperationsExecutionController", Some 1)]
                     true [Runtime.Started]))
    as (c0 & c & E & Hrun & _ & Hcb).
  assert (E0 : Js.Normal c0 = Js.Normal Runtime.fixtureContainer)
    by (rewrite <- E; reflexivity).
  injection E0 as ->. exists c. split; [exact Hrun |].
  intros ctrl Hlt.
  destruct ctrl as [| [| ctrl]]; [| | lia].
  - exact (Hcb "MockObjectController" 0 0 eq_refl).
  - exact (Hcb "MockOperationsExecutionController" 1 1 eq_refl).
Defined.

Lemma getController_registered_or_throws_witness :
  Runtime.getController Runtime.fixtureContainer "MockObjectController"
  = Js.Normal (Some 0).
Proof.
  apply (proj1 (getController_registered_or_throws
                  Runtime.specStartEmits Runtime.specDisposeEmits
                  (Some Runtime.fixtureComponents)
                  (Some Runtime.fixtureConfiguration) None []
                  Runtime.fixtureContainer Runtime.fixtureContainer
                  "MockObjectController" eq_refl eq_refl eq_refl) 0 0).
  reflexivity.
Defined.

(** On the fixture, a name that is not registered makes the call throw, and
    after shutdown every name gives [undefined]. *)
Example getController_fixture :
  Runtime.getController Runtime.fixtureContainer "MockDeviceController"
  = Js.Throw (Js.TypeError "Cannot read property '0' of undefined")
  /\ Js.bind
       (Runtime.shutdown Runtime.specDisposeEmits Runtime.fixtureContainer)
       (fun c => Runtime.getController c "MockObjectController")
     = Js.Normal None.
Proof.
  split; reflexivity.
Qed.

(* ================================================================== *)
(** * Further properties of the Call and Return events *)

Section ReturnEventFacts.
Import Js Topic CallReturn ReturnEvents.

Lemma newReturnEventData_one_defined result error info :
  succeeds (newReturnEventData result error info) ->
  (result <> JUndefined /\ error = JUndefined)
  \/ (result = JUndefined /\ error <> JUndefined).
Proof.
  intros [d H]. unfold newReturnEventData, Return_hasValidParameters in H.
  simpl in H.
  destruct result, error; simpl in H; try discriminate;
    solve [ left; split; [discriminate | reflexivity]
          | right; split; [reflexivity | discriminate] ].
Qed.

(** X1. [ReturnEvent.withResult] succeeds exactly when the result is not
    [undefined] ([null] is a result); it then yields an event of the given
    source whose data carries the result and the execution info, has no
    error and is not an error; with an [undefined] result it throws the
    [TypeError] of [ReturnEventData]. *)
Theorem ReturnEvent_withResult_outcome
    (eventSource : Component) (result executionInfo : JsValue) :
  (succeeds (ReturnEvent_withResult eventSource result executionInfo)
   <-> result <> JUndefined)
  /\ (result = JUndefined ->
      ReturnEvent_withResult eventSource result executionInfo
      = Throw Return_invalid)
  /\ (forall e,
        ReturnEvent_withResult eventSource result executionInfo = Normal e ->
        return_eventSource e = eventSource
        /\ ReturnEvents.result (return_eventData e) = result
        /\ error (return_eventData e) = JUndefined
        /\ isError (return_eventData e) = false
        /\ ReturnEvents.executionInfo (return_eventData e) = executionInfo).
Proof.
  unfold ReturnEvent_withResult. splits.
  - split.
    + intros [e H] ->. discriminate.
    + intros H. rewrite (newReturnEventData_result_only _ _ H).
      eexists. reflexivity.
  - intros ->. reflexivity.
  - intros e H. apply bind_Normal in H. destruct H as (d & Hd & He).
    apply newReturnEventData_stores in Hd. subst d.
    injection He as <-. splits; reflexivity.
Qed.

(** X2. [ReturnEvent.withError] succeeds exactly when code and message are
    both not [undefined], whatever their types; the event data is then an
    error without result, and reading [code] and [message] from its error
    object gives back the two arguments.  Otherwise it throws the
    [TypeError] of [ReturnEventData]. *)
Theorem ReturnEvent_withError_outcome
    (eventSource : Component) (code message executionInfo : JsValue) :
  (succeeds (ReturnEvent_withError eventSource code message executionInfo)
   <-> code <> JUndefined /\ message <> JUndefined)
  /\ (code = JUndefined \/ message = JUndefined ->
      ReturnEvent_withError eventSource code message executionInfo
      = Throw Return_invalid)
  /\ (forall e,
        ReturnEvent_withError eventSource code message executionInfo
        = Normal e ->
        return_eventSource e = eventSource
        /\ isError (return_eventData e) = true
        /\ ReturnEvents.result (return_eventData e) = JUndefined
        /\ getProp (error (return_eventData e)) "code" = Normal code
        /\ getProp (error (return_eventData e)) "message" = Normal message
        /\ ReturnEvents.executionInfo (return_eventData e) = executionInfo).
Proof.
  assert (Hbad : code = JUndefined \/ message = JUndefined ->
                 ReturnEvent_withError eventSource code message executionInfo
                 = Throw Return_invalid).
  { unfold ReturnEvent_withError, newReturnEventData,
      Return_hasValidParameters.
    intros [-> | ->]; [reflexivity |].
    destruct code; reflexivity. }
  splits.
  - split.
    + intros [e H]. split; intros ->; rewrite Hbad in H by auto;
        discriminate.
    + intros [Hc Hm]. unfold ReturnEvent_withError.
      rewrite newReturnEventData_error_object by assumption.
      eexists. reflexivity.
  - exact Hbad.
  - intros e H. unfold ReturnEvent_withError in H.
    apply bind_Normal in H. destruct H as (d & Hd & He).
    apply newReturnEventData_stores in Hd. subst d.
    injection He as <-. splits; reflexivity.
Qed.

(** X3. [ReturnEventData.createFrom] never accepts a payload that is not a
    JSON object: on [undefined] and [null] the property read throws a
    [TypeError] before the constructor runs, and booleans, numbers, strings
    and arrays are rejected by the constructor.  A payload that is accepted
    is an object with exactly one of [result] and [error] defined. *)
Theorem Return_createFrom_payload (eventData : JsValue) :
  (eventData = JUndefined \/ eventData = JNull ->
   raisesTypeError (Return_createFrom eventData)
   /\ Return_createFrom eventData <> Throw Return_invalid)
  /\ (eventData <> JUndefined -> eventData <> JNull ->
      isMappingObject eventData = false ->
      Return_createFrom eventData = Throw Return_invalid)
  /\ (succeeds (Return_createFrom eventData) ->
      exists props,
        eventData = JObject props
        /\ ((lookupProp "result" props <> JUndefined
             /\ lookupProp "error" props = JUndefined)
            \/ (lookupProp "result" props = JUndefined
                /\ lookupProp "error" props <> JUndefined))).
Proof.
  splits.
  - intros [-> | ->]; (split; [eexists; reflexivity | discriminate]).
  - intros Hu Hn Hm. destruct eventData; try reflexivity;
      solve [congruence | discriminate].
  - intros Hs.
    destruct eventData as [| | b | q | s | items | props];
      try (destruct Hs as [d Hd]; discriminate).
    exists props. split; [reflexivity |].
    apply newReturnEventData_one_defined
      with (info := lookupProp "executionInfo" props).
    exact Hs.
Qed.

End ReturnEventFacts.

Section CallEventFacts.
Import Js Topic CallReturn ReturnEvents.

Variable isContextFilterValid : JsValue -> bool.

(** X4. The constructor of [CallEventData] accepts its arguments exactly
    when the filter is valid and the parameters are [undefined], [null], an
    array or a mapping object; it then stores both arguments unchanged, and
    in every other case it throws its own [TypeError] and nothing else. *)
Theorem CallEventData_constructor_outcome (parameters filter : JsValue) :
  (succeeds (newCallEventData isContextFilterValid parameters filter) <->
   (parameters = JUndefined \/ parameters = JNull
    \/ isArray parameters = true \/ isMappingObject parameters = true)
   /\ isContextFilterValid filter = true)
  /\ (forall d,
        newCallEventData isContextFilterValid parameters filter = Normal d ->
        ReturnEvents.parameters d = parameters
        /\ ReturnEvents.filter d = filter)
  /\ (~ succeeds (newCallEventData isContextFilterValid parameters filter) ->
      newCallEventData isContextFilterValid parameters filter
      = Throw Call_invalid).
Proof.
  splits.
  - rewrite newCallEventData_succeeds_iff, typeof_object_cases. tauto.
  - intros d H. apply newCallEventData_stores in H. subst d. auto.
  - intros H.
    destruct (newCallEventData_raises_TypeError isContextFilterValid
                parameters filter); [contradiction | assumption].
Qed.


End CallEventFacts.

Section CallParameterFacts.
Import Js Topic CallReturn ReturnEvents.

Variable isContextFilterValid : JsValue -> bool.

(** X6. [getParameterByIndex] returns the element at the index for
    by-position parameters and an index within the array, and [undefined]
    for an index out of range and for parameters that are not an array
    (by-name, [null] or none); the element it returns for an index in range
    is a member of the array. *)
Theorem getParameterByIndex_bounds (d : CallEventData) (index : nat) :
  (forall items,
     _parameters d = JArray items ->
     (index < List.length items ->
      nth_error items index = Some (getParameterByIndex d index))
     /\ (List.length items <= index ->
         getParameterByIndex d index = JUndefined))
  /\ (isArray (_parameters d) = false ->
      getParameterByIndex d index = JUndefined).
Proof.
  unfold getParameterByIndex. split.
  - intros items ->. split.
    + intros Hlt. apply nth_error_nth'. exact Hlt.
    + intros Hge. apply nth_overflow. exact Hge.
  - destruct (_parameters d); simpl; intros H;
      solve [reflexivity | discriminate].
Qed.

Lemma getParameterByIndex_bounds_witness :
  nth_error [JNumber (42 # 1); JNumber (43 # 1)] 1
  = Some (getParameterByIndex
            (mkCallEventData (JArray [JNumber (42 # 1); JNumber (43 # 1)])
               JUndefined) 1).
Proof.
  apply (proj1 (proj1 (getParameterByIndex_bounds
                         (mkCallEventData
                            (JArray [JNumber (42 # 1); JNumber (43 # 1)])
                            JUndefined) 1)
                  [JNumber (42 # 1); JNumber (43 # 1)] eq_refl)).
  simpl. lia.
Defined.

(** X7. [getParameterByName] throws exactly when the parameters are [null];
    without parameters it returns [undefined]; for by-name parameters and a
    name that is not a member of [Object.prototype] it returns the value
    stored under the name, and [undefined] when no property has that
    name. *)
Theorem getParameterByName_outcome (d : CallEventData) (name : string) :
  (raises (getParameterByName d name) <-> _parameters d = JNull)
  /\ (_parameters d = JUndefined ->
      getParameterByName d name = Normal JUndefined)
  /\ (forall props,
        _parameters d = JObject props ->
        ~ In name objectPrototypeNames ->
        getParameterByName d name = Normal (lookupProp name props)
        /\ (~ In name (map fst props) ->
            getParameterByName d name = Normal JUndefined)
        /\ (forall value rest,
              props = (name, value) :: rest ->
              getParameterByName d name = Normal value)).
Proof.
  unfold getParameterByName. splits.
  - destruct (_parameters d); simpl; split; intros H;
      solve [ reflexivity | discriminate | eexists; reflexivity
            | destruct H as [e H]; discriminate ].
  - intros ->. reflexivity.
  - intros props -> _. splits.
    + reflexivity.
    + simpl. induction props as [| [k v] props IH]; simpl; [reflexivity |].
      intros Hni. destruct (String.eqb_spec k name) as [-> | Hne].
      * exfalso. apply Hni. left. reflexivity.
      * apply IH. intros H. apply Hni. right. exact H.
    + intros value rest ->. simpl. rewrite String.eqb_refl. reflexivity.
Qed.

Lemma getParameterByName_outcome_witness :
  getParameterByName (mkCallEventData (JObject [("speed", JNumber (3 # 1))])
                        JUndefined) "speed"
  = Normal (JNumber (3 # 1))
  /\ getParameterByName (mkCallEventData (JObject [("speed", JNumber (3 # 1))])
                           JUndefined) "mode"
     = Normal JUndefined.
Proof.
  split.
  - destruct (proj2 (proj2 (getParameterByName_outcome
                              (mkCallEventData
                                 (JObject [("speed", JNumber (3 # 1))])
                                 JUndefined) "speed"))
                [("speed", JNumber (3 # 1))] eq_refl)
      as (_ & _ & Hown).
    + simpl. intuition discriminate.
    + exact (Hown (JNumber (3 # 1)) [] eq_refl).
  - destruct (proj2 (proj2 (getParameterByName_outcome
                              (mkCallEventData
                                 (JObject [("speed", JNumber (3 # 1))])
                                 JUndefined) "mode"))
                [("speed", JNumber (3 # 1))] eq_refl)
      as (_ & Hmissing & _).
    + simpl. intuition discriminate.
    + apply Hmissing. simpl. intuition discriminate.
Defined.

(** X8. [CallEvent.with] constructs the event data before the event: with
    arguments the [CallEventData] constructor rejects it throws that
    constructor's [TypeError] whatever the operation name is; with valid
    event data and an invalid operation name it throws the [TypeError] of
    [CallEvent]; otherwise it yields the event, whose operation and
    event-type filter are the given name and whose data holds the given
    parameters and filter. *)
Theorem CallEvent_with_outcome
    (eventSource : Component) (operationName : string)
    (parameters filter : JsValue) :
  (~ succeeds (newCallEventData isContextFilterValid parameters filter) ->
   CallEvent_with isContextFilterValid eventSource operationName
     parameters filter = Throw Call_invalid)
  /\ (succeeds (newCallEventData isContextFilterValid parameters filter) ->
      isValidEventTypeFilter operationName = false ->
      CallEvent_with isContextFilterValid eventSource operationName
        parameters filter = Throw CallEvent_invalid)
  /\ (succeeds (newCallEventData isContextFilterValid parameters filter) ->
      isValidEventTypeFilter operationName = true ->
      exists e,
        CallEvent_with isContextFilterValid eventSource operationName
          parameters filter = Normal e
        /\ call_eventSource e = eventSource
        /\ operation e = operationName
        /\ eventTypeFilter e = operationName
        /\ ReturnEvents.parameters (call_eventData e) = parameters
        /\ ReturnEvents.filter (call_eventData e) = filter).
Proof.
  unfold CallEvent_with. splits.
  - intros H.
    destruct (newCallEventData_raises_TypeError isContextFilterValid
                parameters filter) as [Hs | ->]; [contradiction | reflexivity].
  - intros [d Hd] Hop. rewrite Hd. cbn [bind].
    unfold newCallEvent. rewrite Hop. reflexivity.
  - intros [d Hd] Hop. rewrite Hd. cbn [bind].
    unfold newCallEvent. rewrite Hop. cbn [negb].
    apply newCallEventData_stores in Hd. subst d.
    eexists. splits; reflexivity.
Qed.

End CallParameterFacts.

Lemma CallEvent_with_outcome_witness :
  CallReturn.CallEvent_with (fun _ => true)
    (Topic.mkComponent "3d34eb53-2536-4134-b0cd-8c406b94bb80" "Caller")
    "/coaty/test/add" (Js.JNumber (42 # 1)) Js.JUndefined
  = Js.Throw CallReturn.Call_invalid.
Proof.
  apply (proj1 (CallEvent_with_outcome (fun _ => true)
                  (Topic.mkComponent "3d34eb53-2536-4134-b0cd-8c406b94bb80"
                     "Caller")
                  "/coaty/test/add" (Js.JNumber (42 # 1)) Js.JUndefined)).
  intros [d H]. discriminate.
Defined.

(* ================================================================== *)
(** * Further properties of the container *)

Section ContainerApiFacts.
Import Js Runtime ContainerApi.

Variable startEmits : OperatingState -> list OperatingState.
Variable disposeEmits : OperatingState -> list OperatingState.

Lemma Reachable_Invariant c : Reachable startEmits disposeEmits c -> Invariant c.
Proof.
  intros (components & configuration & tr & ops & c0 & E & Hrun).
  destruct (resolve_Ready _ _ _ _ _ E) as [Hr Hs].
  destruct (run_Invariant disposeEmits ops c0) as (c' & Hrun' & Hinv);
    [left; auto |].
  congruence.
Qed.

Lemma Reachable_step op c c' :
  Reachable startEmits disposeEmits c -> step disposeEmits op c = Normal c' -> Reachable startEmits disposeEmits c'.
Proof.
  intros (components & configuration & tr & ops & c0 & E & Hrun) Hstep.
  exists components, configuration, tr, (ops ++ [op]), c0.
  split; [exact E |].
  rewrite run_app, Hrun. cbn [bind run]. rewrite Hstep. reflexivity.
Qed.

Lemma Reachable_run ops c c' :
  Reachable startEmits disposeEmits c -> run disposeEmits ops c = Normal c' -> Reachable startEmits disposeEmits c'.
Proof.
  intros (components & configuration & tr & ops0 & c0 & E & Hrun) Hrun'.
  exists components, configuration, tr, (ops0 ++ ops), c0.
  split; [exact E |]. rewrite run_app, Hrun. exact Hrun'.
Qed.

(** A reachable container that is not shut down is live: it has its map
    and its subscription, and all its controllers are resolved. *)
Lemma Reachable_live c :
  Reachable startEmits disposeEmits c -> _isShutdown c = false ->
  Ready Resolved c /\ _subscribed c = true
  /\ exists m, _controllers c = Some m.
Proof.
  intros Hreach Hlive.
  destruct (Reachable_Invariant c Hreach) as [[Hr Hs] | [(Hsd & _) _]];
    [| congruence].
  splits; try assumption. exact (Ready_map _ _ Hr).
Qed.

Lemma Reachable_released c :
  Reachable startEmits disposeEmits c -> _isShutdown c = true -> Released c.
Proof.
  intros Hreach Hsd.
  destruct (Reachable_Invariant c Hreach) as [[Hr _] | [Hrel _]];
    [| exact Hrel].
  destruct Hr as (Hlive & _). congruence.
Qed.

(** What [registerController] does on a container with its map. *)
Lemma registerController_live controllerName ty c m :
  _isShutdown c = false -> _controllers c = Some m -> controllerName <> "" ->
  registerController controllerName (Some ty) c =
  Normal (mkContainer (Some (mapSet controllerName (nextInstance c, ty) m))
            (_isShutdown c) (_subscribed c) (managerState c)
            (S (nextInstance c))
            (calls c
             ++ [ControllerCall (nextInstance c) OnInit;
                 ControllerCall (nextInstance c) OnContainerResolved]
             ++ catchUp (managerState c) (nextInstance c)),
          Some (nextInstance c)).
Proof.
  intros Hlive Hm Hn. unfold registerController. rewrite Hlive.
  rewrite (resolveController_new _ ty _ _ Hn Hm). cbn [bind snd fst].
  unfold logCalls, catchUp.
  cbn [_controllers _isShutdown _subscribed managerState nextInstance calls].
  destruct (managerState c);
    cbn [_controllers _isShutdown _subscribed managerState nextInstance calls
         _dispatchOperatingState map];
    rewrite <- ?app_assoc, ?Hlive; reflexivity.
Qed.

Lemma registerController_unusable controllerName controllerType c :
  controllerName = "" \/ controllerType = None ->
  registerController controllerName controllerType c = Normal (c, None).
Proof.
  intros H. unfold registerController.
  destruct (_isShutdown c); [reflexivity |].
  rewrite (resolveController_skip _ _ c H). reflexivity.
Qed.

Lemma managerEmits_live state c m :
  _subscribed c = true -> _controllers c = Some m ->
  managerEmits state c =
  mkContainer (Some m) (_isShutdown c) true state (nextInstance c)
    (calls c ++ flat_map (_dispatchOperatingState state) (instances m)).
Proof.
  intros Hs Hm.
  rewrite <- (app_nil_r (flat_map _ _)).
  exact (managerEmitsAll_subscribed [state] c m Hs Hm).
Qed.


(** X10. On a container that has not been shut down, [registerController]
    with an empty name or without a class returns [undefined] and leaves the
    container as it is; otherwise it returns a controller instance that has
    never been called before, calls [onInit] and [onContainerResolved] on
    it, and [onCommunicationManagerStarting] too exactly when the
    communication manager is starting or started; afterwards
    [getController] returns the new instance for the name, and what is
    registered under any other name is unchanged. *)
Theorem registerController_effect
    (controllerName : string) (controllerType : option ControllerType)
    (c : Container) :
  Reachable startEmits disposeEmits c -> _isShutdown c = false ->
  (controllerName = "" \/ controllerType = None ->
   registerController controllerName controllerType c = Normal (c, None))
  /\ (forall ty,
        controllerName <> "" -> controllerType = Some ty ->
        exists c',
          registerController controllerName controllerType c
          = Normal (c', Some (nextInstance c))
          /\ callbacksOf (nextInstance c) (calls c) = []
          /\ calls c' =
             calls c
             ++ [ControllerCall (nextInstance c) OnInit;
                 ControllerCall (nextInstance c) OnContainerResolved]
             ++ catchUp (managerState c) (nextInstance c)
          /\ getController c' controllerName
             = Normal (Some (nextInstance c))
          /\ (forall other,
                other <> controllerName ->
                registered c' other = registered c other)
          /\ _isShutdown c' = false).
Proof.
  intros Hreach Hlive.
  destruct (Reachable_live c Hreach Hlive) as (Hr & Hs & m & Hm).
  split; [apply registerController_unusable |].
  intros ty Hn ->.
  rewrite (registerController_live _ ty _ _ Hlive Hm Hn).
  eexists. split; [reflexivity |].
  destruct Hr as (_ & _ & _ & Hfresh & _).
  unfold getController, registered.
  cbn [_controllers _isShutdown calls]. rewrite Hm, mapGet_mapSet_same.
  splits; try reflexivity; try assumption.
  - apply Hfresh. lia.
  - intros other Hne. apply mapGet_mapSet_other. congruence.
Qed.

Lemma step_released op c :
  Released c ->
  exists c', step disposeEmits op c = Normal c'
    /\ Released c' /\ calls c' = calls c.
Proof.
  intros (Hsd & Hsub & Hmap).
  destruct op as [controllerName controllerType | state |]; cbn [step].
  - unfold registerController. rewrite Hsd. cbn [bind fst].
    exists c. splits; try reflexivity. repeat split; assumption.
  - eexists. split; [reflexivity |]. unfold managerEmits. rewrite Hsub.
    split; [repeat split; assumption | reflexivity].
  - rewrite (shutdown_released disposeEmits c Hsd).
    exists c. splits; try reflexivity. repeat split; assumption.
Qed.

Lemma run_released ops c :
  Released c ->
  exists c', run disposeEmits ops c = Normal c'
    /\ Released c' /\ calls c' = calls c.
Proof.
  revert c. induction ops as [| op ops IH]; intros c Hrel.
  - exists c. auto.
  - cbn [run]. destruct (step_released op c Hrel) as (c1 & -> & Hrel1 & E1).
    cbn [bind]. destruct (IH c1 Hrel1) as (c' & Hrun & Hrel' & E').
    exists c'. splits; try assumption. congruence.
Qed.

(** X11. Once a container has been shut down, whatever operations follow
    run without exception and call nothing, neither on a controller nor on
    the communication manager; the container stays shut down,
    [getController] answers [undefined] for every name,
    [registerController] returns [undefined] without effect and
    [mapControllers] returns the empty array. *)
Theorem nothing_happens_after_shutdown (c : Container) (ops : list Op) :
  Reachable startEmits disposeEmits c -> _isShutdown c = true ->
  exists c',
    run disposeEmits ops c = Normal c'
    /\ calls c' = calls c
    /\ _isShutdown c' = true
    /\ (forall controllerName,
          getController c' controllerName = Normal None)
    /\ (forall controllerName controllerType,
          registerController controllerName controllerType c'
          = Normal (c', None))
    /\ (forall (T : Type) (callback : string -> ControllerType -> CtrlId -> T),
          mapControllers callback c' = []).
Proof.
  intros Hreach Hsd.
  pose proof (Reachable_released c Hreach Hsd) as Hrel.
  destruct (run_released ops c Hrel) as (c' & Hrun & (Hsd' & Hsub' & Hm') & E).
  exists c'. splits; try assumption.
  - intros controllerName. unfold getController. rewrite Hm'. reflexivity.
  - intros controllerName controllerType. unfold registerController.
    rewrite Hsd'. reflexivity.
  - intros T callback. unfold mapControllers. rewrite Hm'. reflexivity.
Qed.

Lemma phaseAfter_no_dispose p q cbs :
  phaseAfter p cbs = Some q -> q <> Disposed -> ~ In OnDispose cbs.
Proof.
  revert p. induction cbs as [| cb cbs IH]; intros p Hp Hq; [intros [] |].
  cbn [phaseAfter] in Hp. destruct (phaseStep p cb) as [p' |] eqn:Es;
    [| discriminate].
  intros [-> | Hin].
  - destruct p; try discriminate. injection Es as <-.
    destruct cbs as [| cb' cbs']; cbn in Hp; [congruence | discriminate].
  - exact (IH p' Hp Hq Hin).
Qed.

Lemma notifications_no_dispose states : ~ In OnDispose (notifications states).
Proof.
  induction states as [| s states IH]; [intros [] |].
  destruct s; cbn; try exact IH; intros [H | H];
    solve [discriminate | exact (IH H)].
Qed.

Lemma quiet_no_ManagerDispose log :
  forallb quietCall log = true -> List.filter isManagerDispose log = [].
Proof.
  induction log as [| call log IH]; cbn; [reflexivity |].
  rewrite andb_true_iff. intros [Hq Hl].
  destruct call as [i cb | |]; cbn in *; try discriminate; auto.
Qed.


Lemma instances_mapSet_replaced controllerName old ty0 new ty m :
  mapGet controllerName m = Some (old, ty0) ->
  NoDup (instances m) -> old <> new ->
  ~ In old (instances (mapSet controllerName (new, ty) m)).
Proof.
  induction m as [| [k [i t]] m IH]; cbn; [discriminate |].
  intros Hg Hnd Hne. inversion Hnd as [| ? ? Hi Hnd']; subst.
  destruct (String.eqb k controllerName).
  - injection Hg as -> ->. cbn. intros [H | H]; [congruence | contradiction].
  - cbn. intros [-> | H].
    + apply Hi. exact (mapGet_instances _ _ _ _ Hg).
    + exact (IH Hg Hnd' Hne H).
Qed.

(** An instance that has been allocated and is not in the map is never
    called again, and never gets back into the map. *)
Lemma step_outsider op c c' ctrl :
  Invariant c -> ctrl < nextInstance c ->
  (forall m, _controllers c = Some m -> ~ In ctrl (instances m)) ->
  step disposeEmits op c = Normal c' ->
  callbacksOf ctrl (calls c') = callbacksOf ctrl (calls c)
  /\ ctrl < nextInstance c'
  /\ (forall m', _controllers c' = Some m' -> ~ In ctrl (instances m')).
Proof.
  intros [[Hr Hs] | Hrel] Hlt Hout Hstep.
  - destruct (Ready_map _ _ Hr) as [m Hm]. pose proof Hr as (Hlive & _).
    specialize (Hout m Hm).
    destruct op as [controllerName controllerType | state |]; cbn [step] in Hstep.
    + destruct (resolveController_cases controllerName controllerType)
        as [Hskip | [Hn [ty ->]]].
      * rewrite (registerController_unusable _ _ c Hskip) in Hstep.
        injection Hstep as <-. splits; try reflexivity; try assumption.
        intros m' Hm'. congruence.
      * rewrite (registerController_live _ ty _ _ Hlive Hm Hn) in Hstep.
        injection Hstep as <-.
        cbn [_controllers nextInstance calls]. splits.
        -- rewrite !callbacksOf_app.
           assert (Hne : Nat.eqb (nextInstance c) ctrl = false)
             by (apply Nat.eqb_neq; lia).
           unfold catchUp. destruct (managerState c); cbn; rewrite ?Hne;
             cbn; rewrite app_nil_r; reflexivity.
        -- lia.
        -- intros m' E. injection E as <-. intros Hin.
           apply instances_mapSet_in in Hin. destruct Hin; [lia | auto].
    + injection Hstep as <-. rewrite (managerEmits_live _ _ _ Hs Hm).
      cbn [_controllers nextInstance calls]. splits.
      * rewrite callbacksOf_app, callbacksOf_dispatch_notin by assumption.
        apply app_nil_r.
      * assumption.
      * intros m' E. injection E as <-. assumption.
    + rewrite (shutdown_live disposeEmits c m Hlive Hs Hm) in Hstep.
      injection Hstep as <-.
      cbn [_controllers nextInstance calls]. splits.
      * repeat (rewrite callbacksOf_app || (progress cbn [app callbacksOf])).
        rewrite callbacksOf_dispatchAll_notin, callbacksOf_forEach_notin
          by assumption.
        apply app_nil_r.
      * assumption.
      * intros m' E. discriminate.
  - destruct Hrel as [Hrel _].
    destruct (step_released op c Hrel) as (c1 & Hstep1 & (_ & _ & Hm1) & E1).
    assert (c1 = c') by congruence. subst c1.
    splits.
    + congruence.
    + destruct op as [controllerName controllerType | state |];
        cbn [step] in Hstep.
      * destruct Hrel as (Hsd & _). unfold registerController in Hstep.
        rewrite Hsd in Hstep. injection Hstep as <-. assumption.
      * injection Hstep as <-. unfold managerEmits.
        destruct (_subscribed c); assumption.
      * destruct Hrel as (Hsd & _).
        rewrite (shutdown_released disposeEmits c Hsd) in Hstep.
        injection Hstep as <-. assumption.
    + intros m' E. congruence.
Qed.

Lemma run_outsider ops c c' ctrl :
  Invariant c -> ctrl < nextInstance c ->
  (forall m, _controllers c = Some m -> ~ In ctrl (instances m)) ->
  run disposeEmits ops c = Normal c' ->
  callbacksOf ctrl (calls c') = callbacksOf ctrl (calls c)
  /\ (forall m', _controllers c' = Some m' -> ~ In ctrl (instances m')).
Proof.
  revert c. induction ops as [| op ops IH]; intros c Hinv Hlt Hout Hrun.
  - injection Hrun as <-. auto.
  - cbn [run] in Hrun.
    destruct (step_Invariant disposeEmits op c Hinv) as (c1 & Hstep & Hinv1).
    rewrite Hstep in Hrun. cbn [bind] in Hrun.
    destruct (step_outsider op c c1 ctrl Hinv Hlt Hout Hstep)
      as (E1 & Hlt1 & Hout1).
    destruct (IH c1 Hinv1 Hlt1 Hout1 Hrun) as (E' & Hout').
    split; [congruence | assumption].
Qed.

(** X13. Registering a controller under a name that is already taken
    replaces the registered instance, and the replaced instance is
    abandoned: whatever operations follow, shutdown included, it is never
    called again, so it never receives [onDispose], and [getController]
    never returns it. *)
Theorem replaced_controller_is_abandoned
    (c c1 c2 : Container) (controllerName : string) (old new : CtrlId)
    (ty0 ty : ControllerType) (ops : list Op) :
  Reachable startEmits disposeEmits c -> _isShutdown c = false ->
  registered c controllerName = Some (old, ty0) ->
  registerController controllerName (Some ty) c = Normal (c1, Some new) ->
  run disposeEmits ops c1 = Normal c2 ->
  new <> old
  /\ getController c1 controllerName = Normal (Some new)
  /\ callbacksOf old (calls c2) = callbacksOf old (calls c)
  /\ ~ In OnDispose (callbacksOf old (calls c2))
  /\ (forall other, getController c2 other <> Normal (Some old)).
Proof.
  intros Hreach Hlive Hreg Hregister Hrun.
  destruct (Reachable_live c Hreach Hlive) as (Hr & Hs & m & Hm).
  pose proof (Ready_NoDup _ _ _ Hr Hm) as Hnd.
  unfold registered in Hreg. rewrite Hm in Hreg.
  pose proof (mapGet_instances _ _ _ _ Hreg) as Hold.
  destruct Hr as (_ & (m' & Hm' & _ & Hmem) & Hord & Hfresh & Hquiet).
  assert (m' = m) by congruence. subst m'.
  destruct (Hmem old Hold) as [Hlt Hp].
  assert (Hn : controllerName <> "").
  { intros ->. rewrite registerController_unusable in Hregister by auto.
    discriminate. }
  assert (Hreach1 : Reachable startEmits disposeEmits c1).
  { apply (Reachable_step (RegisterController controllerName (Some ty)) c);
      [assumption |].
    cbn [step]. rewrite Hregister. reflexivity. }
  rewrite (registerController_live _ ty _ _ Hlive Hm Hn) in Hregister.
  injection Hregister as <- <-.
  assert (Hne : nextInstance c <> old) by lia.
  match type of Hrun with
  | run _ _ ?c1 = _ =>
      assert (Hlt1 : old < nextInstance c1) by (cbn [nextInstance]; lia);
      assert (Hout1 : forall m1,
                 _controllers c1 = Some m1 -> ~ In old (instances m1))
  end.
  { cbn [_controllers]. intros m1 E1. injection E1 as <-.
    apply (instances_mapSet_replaced _ _ ty0); auto. }
  destruct (run_outsider ops _ c2 old (Reachable_Invariant _ Hreach1)
              Hlt1 Hout1 Hrun) as (E & Hout).
  cbn [calls] in E.
  assert (E0 : callbacksOf old (calls c2) = callbacksOf old (calls c)).
  { rewrite E, !callbacksOf_app.
    assert (Hneb : Nat.eqb (nextInstance c) old = false)
      by (apply Nat.eqb_neq; assumption).
    unfold catchUp. destruct (managerState c); cbn; rewrite ?Hneb;
      cbn; rewrite app_nil_r; reflexivity. }
  splits.
  - assumption.
  - unfold getController. cbn [_controllers].
    rewrite mapGet_mapSet_same. reflexivity.
  - exact E0.
  - rewrite E0. apply (phaseAfter_no_dispose _ _ _ Hp). discriminate.
  - intros other. unfold getController.
    destruct (_controllers c2) as [m2 |] eqn:Hm2; [| discriminate].
    destruct (mapGet other m2) as [[i t] |] eqn:Hg; [| discriminate].
    intros H. injection H as ->.
    exact (Hout m2 eq_refl (mapGet_instances _ _ _ _ Hg)).
Qed.

Lemma mapSet_fresh key v m :
  ~ In key (keys m) -> mapSet key v m = m ++ [(key, v)].
Proof.
  induction m as [| [k w] m IH]; cbn; [reflexivity |].
  intros Hni. destruct (String.eqb_spec k key) as [-> | Hne].
  - exfalso. apply Hni. left. reflexivity.
  - rewrite IH; [reflexivity |]. intros H. apply Hni. right. exact H.
Qed.

Lemma keys_resolvedMap next next' entries :
  keys (resolvedMap next entries) = keys (resolvedMap next' entries).
Proof.
  revert next next'.
  induction entries as [| [controllerName [ty |]] entries IH];
    intros next next'; cbn; auto.
  destruct (String.eqb controllerName ""); cbn; [apply IH |].
  f_equal. apply IH.
Qed.

Lemma instances_app m1 m2 : instances (m1 ++ m2) = instances m1 ++ instances m2.
Proof. apply map_app. Qed.

(** [resolveAll] on entries with distinct usable names. *)
Lemma resolveAll_distinct entries c m :
  _controllers c = Some m ->
  NoDup (keys m ++ keys (resolvedMap (nextInstance c) entries)) ->
  resolveAll entries c =
  Normal (mkContainer (Some (m ++ resolvedMap (nextInstance c) entries))
            (_isShutdown c) (_subscribed c) (managerState c)
            (nextInstance c
             + List.length (resolvedMap (nextInstance c) entries))
            (calls c
             ++ map (fun i => ControllerCall i OnInit)
                  (instances (resolvedMap (nextInstance c) entries)))).
Proof.
  revert c m.
  induction entries as [| [controllerName controllerType] entries IH];
    intros c m Hm Hnd.
  - cbn [resolveAll resolvedMap instances map List.length].
    rewrite !app_nil_r, Nat.add_0_r.
    destruct c. cbn in Hm |- *. subst. reflexivity.
  - cbn [resolveAll].
    destruct (resolveController_cases controllerName controllerType)
      as [Hskip | [Hn [ty ->]]].
    + rewrite (resolveController_skip _ _ c Hskip). cbn [bind fst].
      assert (E : resolvedMap (nextInstance c)
                    ((controllerName, controllerType) :: entries)
                  = resolvedMap (nextInstance c) entries).
      { destruct Hskip as [-> | ->]; cbn; [| reflexivity].
        destruct controllerType; reflexivity. }
      rewrite E in *. apply IH; assumption.
    + rewrite (resolveController_new _ ty _ _ Hn Hm). cbn [bind fst].
      assert (E : resolvedMap (nextInstance c)
                    ((controllerName, Some ty) :: entries)
                  = (controllerName, (nextInstance c, ty))
                    :: resolvedMap (S (nextInstance c)) entries).
      { cbn. apply String.eqb_neq in Hn. rewrite Hn. reflexivity. }
      rewrite E in *. cbn [keys map fst] in Hnd.
      assert (Hfresh : ~ In controllerName (keys m)).
      { intros Hin. apply NoDup_remove_2 in Hnd. apply Hnd.
        apply in_or_app. left. exact Hin. }
      rewrite (mapSet_fresh _ _ _ Hfresh).
      rewrite (IH _ (m ++ [(controllerName, (nextInstance c, ty))])).
      * cbn [_isShutdown _subscribed managerState nextInstance calls
             instances map fst snd List.length].
        rewrite <- !app_assoc, Nat.add_succ_r. reflexivity.
      * reflexivity.
      * cbn [nextInstance]. unfold keys at 1. rewrite map_app.
        cbn [map fst]. rewrite <- app_assoc. exact Hnd.
Qed.

Lemma instances_resolvedMap next entries :
  instances (resolvedMap next entries)
  = seq next (List.length (resolvedMap next entries)).
Proof.
  revert next.
  induction entries as [| [controllerName [ty |]] entries IH];
    intros next; cbn; auto.
  destruct (String.eqb controllerName ""); cbn; [apply IH |].
  f_equal. apply IH.
Qed.

Lemma keys_resolvedMap_usable next entries :
  keys (resolvedMap next entries) = map fst (List.filter usable entries).
Proof.
  revert next.
  induction entries as [| [controllerName controllerType] entries IH];
    intros next; [reflexivity |].
  cbn [resolvedMap List.filter]. unfold usable at 1. cbn [fst snd].
  destruct controllerType as [ty |].
  - destruct (String.eqb controllerName ""); cbn; [apply IH |].
    f_equal. apply IH.
  - rewrite andb_false_r. apply IH.
Qed.

(** X14. For components whose usable entries (non-empty name, a class) have
    distinct names, [Container.resolve] creates one controller for each
    usable entry, in [Object.keys] order, and calls [onInit] on every
    controller before it calls [onContainerResolved] on any of them, both
    in that order; only then, and only with [shouldAutoStart], it starts
    the communication manager, whose state changes inside [start()] reach
    every controller.  Unusable entries are skipped, and [mapControllers]
    lists the usable names in order. *)
Theorem resolve_calls_in_order
    (entries : list (string * option ControllerType)) (autoStart : bool) :
  NoDup (map fst (List.filter usable entries)) ->
  exists c0,
    resolve startEmits (Some (mkComponents (Some entries)))
      (Some (mkConfiguration autoStart)) None = Normal c0
    /\ _controllers c0 = Some (resolvedMap 0 entries)
    /\ instances (resolvedMap 0 entries)
       = seq 0 (List.length (List.filter usable entries))
    /\ mapControllers (fun controllerName _ _ => controllerName) c0
       = map fst (List.filter usable entries)
    /\ calls c0 =
       map (fun i => ControllerCall i OnInit)
         (seq 0 (List.length (List.filter usable entries)))
       ++ map (fun i => ControllerCall i OnContainerResolved)
            (seq 0 (List.length (List.filter usable entries)))
       ++ (if autoStart
           then ManagerStart
                :: dispatchAll (startEmits Initial)
                     (seq 0 (List.length (List.filter usable entries)))
           else []).
Proof.
  intros Hnd. rewrite <- (keys_resolvedMap_usable 0) in Hnd.
  assert (Hlen : List.length (List.filter usable entries)
                 = List.length (resolvedMap 0 entries)).
  { rewrite <- (length_map fst (List.filter usable entries)),
      <- (keys_resolvedMap_usable 0). unfold keys. apply length_map. }
  rewrite Hlen, <- instances_resolvedMap, <- (keys_resolvedMap_usable 0).
  set (m0 := resolvedMap 0 entries) in *.
  pose proof (resolveAll_distinct entries newContainer [] eq_refl Hnd) as E1.
  cbn [nextInstance newContainer _isShutdown _subscribed managerState calls
       app Nat.add] in E1.
  fold m0 in E1.
  unfold resolve, _resolveComponents. cbn [controllers shouldAutoStart].
  rewrite E1. cbn [bind].
  match goal with
  | |- context [match _controllers ?c with _ => _ end] =>
      remember c as c1 eqn:Ec1
  end.
  assert (Hm : _controllers c1 = Some m0) by (subst c1; reflexivity).
  rewrite Hm. cbv zeta.
  set (c2 := logCalls _ c1).
  assert (E2 : c2 = mkContainer (Some m0) false false Initial
                      (List.length m0)
                      (map (fun i => ControllerCall i OnInit) (instances m0)
                       ++ map (fun i => ControllerCall i OnContainerResolved)
                            (instances m0))).
  { unfold c2, logCalls. subst c1. reflexivity. }
  clearbody c2. subst c2. clear E1 Ec1 Hm c1.
  cbn [_controllers _isShutdown _subscribed managerState nextInstance calls].
  unfold operatingStateObserver. cbn [_controllers].
  rewrite dispatch_forEach. unfold logCalls.
  cbn [_controllers _isShutdown _subscribed managerState nextInstance calls].
  rewrite app_nil_r.
  destruct autoStart.
  - rewrite (managerEmitsAll_subscribed _ _ m0) by reflexivity.
    cbn [_controllers _isShutdown _subscribed managerState nextInstance calls].
    eexists. split; [reflexivity |].
    unfold mapControllers. cbn [_controllers calls].
    splits; try reflexivity.
    rewrite <- !app_assoc. reflexivity.
  - eexists. split; [reflexivity |].
    unfold mapControllers. cbn [_controllers calls].
    splits; try reflexivity.
    rewrite app_nil_r. reflexivity.
Qed.

Lemma keys_mapSet_in key v m x :
  In x (keys (mapSet key v m)) -> x = key \/ In x (keys m).
Proof.
  induction m as [| [k w] m IH]; cbn.
  - intros [<- | []]. auto.
  - destruct (String.eqb k key); cbn.
    + intros [<- | H]; auto.
    + intros [<- | H]; auto. destruct (IH H); auto.
Qed.

Lemma keys_mapSet_NoDup key v m :
  NoDup (keys m) -> NoDup (keys (mapSet key v m)).
Proof.
  induction m as [| [k w] m IH]; cbn; intros Hnd.
  - constructor; [intros [] | constructor].
  - inversion Hnd as [| ? ? Hk Hnd']; subst.
    destruct (String.eqb_spec k key) as [-> | Hne]; cbn.
    + constructor; assumption.
    + constructor; [| auto].
      intros H. apply keys_mapSet_in in H. destruct H; [congruence | auto].
Qed.

Lemma mapGet_In_iff key v m :
  NoDup (keys m) -> (mapGet key m = Some v <-> In (key, v) m).
Proof.
  induction m as [| [k w] m IH]; cbn; intros Hnd.
  - split; [discriminate | intros []].
  - inversion Hnd as [| ? ? Hk Hnd']; subst.
    destruct (String.eqb_spec k key) as [-> | Hne].
    + split.
      * intros E. injection E as ->. left. reflexivity.
      * intros [E | Hin]; [congruence |].
        exfalso. apply Hk. unfold keys. apply (in_map fst _ _ Hin).
    + rewrite (IH Hnd'). split; [auto |].
      intros [E | Hin]; [congruence | assumption].
Qed.

Lemma managerEmitsAll_controllers states c :
  _controllers (managerEmitsAll states c) = _controllers c.
Proof.
  revert c. induction states as [| s states IH]; intros c; [reflexivity |].
  change (managerEmitsAll (s :: states) c)
    with (managerEmitsAll states (managerEmits s c)).
  rewrite IH. unfold managerEmits. destruct (_subscribed c); reflexivity.
Qed.

Lemma resolveAll_keys entries c c' :
  (forall m, _controllers c = Some m -> NoDup (keys m)) ->
  resolveAll entries c = Normal c' ->
  forall m', _controllers c' = Some m' -> NoDup (keys m').
Proof.
  revert c. induction entries as [| [controllerName controllerType] entries IH];
    intros c Hk Hrun.
  - injection Hrun as <-. exact Hk.
  - cbn [resolveAll] in Hrun.
    destruct (resolveController_cases controllerName controllerType)
      as [Hskip | [Hn [ty ->]]].
    + rewrite (resolveController_skip _ _ c Hskip) in Hrun.
      cbn [bind fst] in Hrun. exact (IH c Hk Hrun).
    + destruct (_controllers c) as [m |] eqn:Hm.
      * rewrite (resolveController_new _ ty _ _ Hn Hm) in Hrun.
        cbn [bind fst] in Hrun. apply (IH _) with (2 := Hrun).
        cbn [_controllers]. intros m1 E. injection E as <-.
        apply keys_mapSet_NoDup. auto.
      * unfold _resolveController in Hrun.
        apply String.eqb_neq in Hn. rewrite Hn, Hm in Hrun. discriminate.
Qed.

Lemma resolve_keys components configuration configTransformer c0 :
  resolve startEmits components configuration configTransformer = Normal c0 ->
  forall m, _controllers c0 = Some m -> NoDup (keys m).
Proof.
  unfold resolve, _resolveComponents.
  destruct (match configTransformer with
            | Some f => f configuration
            | None => configuration
            end) as [cfg |]; [| discriminate].
  destruct (match controllers match components with
                              | Some cs => cs
                              | None => mkComponents None
                              end with
            | Some es => resolveAll es newContainer
            | None => Normal newContainer
            end) as [c1 | e] eqn:E1; [| discriminate].
  cbn [bind].
  assert (Hk1 : forall m, _controllers c1 = Some m -> NoDup (keys m)).
  { destruct (controllers _) as [es |].
    - apply (resolveAll_keys es newContainer c1); [| exact E1].
      cbn. intros m E. injection E as <-. constructor.
    - injection E1 as <-. cbn. intros m E. injection E as <-. constructor. }
  cbv zeta.
  set (c2 := match _controllers c1 with
             | Some m => logCalls _ c1
             | None => c1
             end).
  assert (E2 : _controllers c2 = _controllers c1).
  { unfold c2. destruct (_controllers c1) eqn:Em; [| exact Em].
    cbn. exact Em. }
  clearbody c2.
  destruct (shouldAutoStart cfg); intros H; injection H as <-;
    intros m; rewrite ?managerEmitsAll_controllers; cbn [_controllers logCalls];
    rewrite E2; apply Hk1.
Qed.

Lemma step_keys op c c' :
  Invariant c ->
  (forall m, _controllers c = Some m -> NoDup (keys m)) ->
  step disposeEmits op c = Normal c' ->
  forall m', _controllers c' = Some m' -> NoDup (keys m').
Proof.
  intros [[Hr Hs] | [Hrel _]] Hk Hstep.
  - destruct (Ready_map _ _ Hr) as [m Hm]. pose proof Hr as (Hlive & _).
    destruct op as [controllerName controllerType | state |];
      cbn [step] in Hstep.
    + destruct (resolveController_cases controllerName controllerType)
        as [Hskip | [Hn [ty ->]]].
      * rewrite (registerController_unusable _ _ c Hskip) in Hstep.
        injection Hstep as <-. exact Hk.
      * rewrite (registerController_live _ ty _ _ Hlive Hm Hn) in Hstep.
        injection Hstep as <-. cbn [_controllers].
        intros m' E. injection E as <-. apply keys_mapSet_NoDup. auto.
    + injection Hstep as <-. rewrite (managerEmits_live _ _ _ Hs Hm).
      cbn [_controllers]. intros m' E. injection E as <-. auto.
    + rewrite (shutdown_live disposeEmits c m Hlive Hs Hm) in Hstep.
      injection Hstep as <-. cbn [_controllers]. discriminate.
  - destruct (step_released op c Hrel) as (c1 & Hstep1 & (_ & _ & Hm1) & _).
    assert (c1 = c') by congruence. subst c1.
    intros m' E. congruence.
Qed.

Lemma Reachable_keys c :
  Reachable startEmits disposeEmits c ->
  forall m, _controllers c = Some m -> NoDup (keys m).
Proof.
  intros (components & configuration & tr & ops & c0 & E & Hrun).
  pose proof (resolve_keys _ _ _ _ E) as Hk0.
  destruct (resolve_Ready _ _ _ _ _ E) as [Hr0 Hs0].
  assert (Hinv0 : Invariant c0) by (left; auto).
  clear E Hr0 Hs0. revert c0 Hrun Hk0 Hinv0.
  induction ops as [| op ops IH]; intros c0 Hrun Hk0 Hinv0.
  - injection Hrun as <-. exact Hk0.
  - cbn [run] in Hrun.
    destruct (step_Invariant disposeEmits op c0 Hinv0) as (c1 & Hstep & Hinv1).
    rewrite Hstep in Hrun. cbn [bind] in Hrun.
    apply (IH c1 Hrun); [| exact Hinv1].
    exact (step_keys op c0 c1 Hinv0 Hk0 Hstep).
Qed.

(** X15. On every container a program can hold, [mapControllers] and
    [getController] agree: [mapControllers] lists no name and no controller
    instance twice, and it lists a controller under a name exactly when
    [getController] returns that controller for the name. *)
Theorem mapControllers_agrees_with_getController (c : Container) :
  Reachable startEmits disposeEmits c ->
  NoDup (mapControllers (fun controllerName _ _ => controllerName) c)
  /\ NoDup (mapControllers (fun _ _ ctrl => ctrl) c)
  /\ (forall controllerName ctrl,
        In (controllerName, ctrl)
          (mapControllers (fun name _ instance => (name, instance)) c)
        <-> getController c controllerName = Normal (Some ctrl)).
Proof.
  intros Hreach. pose proof (Reachable_keys c Hreach) as Hk.
  unfold mapControllers, getController.
  destruct (_controllers c) as [m |] eqn:Hm.
  - specialize (Hk m eq_refl).
    assert (Hnd : NoDup (instances m)).
    { destruct (Reachable_Invariant c Hreach) as [[Hr _] | [(_ & _ & E) _]];
        [exact (Ready_NoDup _ _ _ Hr Hm) | congruence]. }
    splits.
    + exact Hk.
    + exact Hnd.
    + intros controllerName ctrl. rewrite in_map_iff. split.
      * intros ([k [i t]] & E & Hin). cbn in E. injection E as -> ->.
        apply (mapGet_In_iff _ _ _ Hk) in Hin. rewrite Hin. reflexivity.
      * destruct (mapGet controllerName m) as [[i t] |] eqn:Hg;
          [| discriminate].
        intros E. injection E as ->.
        apply (mapGet_In_iff _ _ _ Hk) in Hg.
        exists (controllerName, (ctrl, t)). split; [reflexivity | exact Hg].
  - splits; [constructor | constructor |].
    intros controllerName ctrl. split; [intros [] | discriminate].
Qed.


End ContainerApiFacts.

(* ================================================================== *)
(** * The container properties on the fixtures *)

Lemma fixtureContainer_reachable :
  ContainerApi.Reachable Runtime.specStartEmits Runtime.specDisposeEmits
    Runtime.fixtureContainer.
Proof.
  exists (Some Runtime.fixtureComponents), (Some Runtime.fixtureConfiguration),
    None, [], Runtime.fixtureContainer.
  split; reflexivity.
Qed.

Lemma fixtureReleased_reachable :
  ContainerApi.Reachable Runtime.specStartEmits Runtime.specDisposeEmits
    ContainerApi.fixtureReleased.
Proof.
  exists (Some Runtime.fixtureComponents), (Some Runtime.fixtureConfiguration),
    None, [Runtime.Shutdown], Runtime.fixtureContainer.
  split; reflexivity.
Qed.

Lemma registerController_effect_witness :
  exists c',
    Runtime.registerController "MockDeviceController" (Some 5)
      Runtime.fixtureContainer = Js.Normal (c', Some 2)
    /\ Runtime.getController c' "MockDeviceController" = Js.Normal (Some 2).
Proof.
  destruct (proj2 (registerController_effect
                     Runtime.specStartEmits Runtime.specDisposeEmits
                     "MockDeviceController" (Some 5) Runtime.fixtureContainer
                     fixtureContainer_reachable eq_refl) 5)
    as (c' & Hreg & _ & _ & Hget & _).
  - discriminate.
  - reflexivity.
  - exists c'. split; assumption.
Defined.

Lemma nothing_happens_after_shutdown_witness :
  exists c',
    Runtime.run Runtime.specDisposeEmits
      [Runtime.RegisterController "MockDeviceController" (Some 5);
       Runtime.ManagerEmits Runtime.Starting; Runtime.Shutdown]
      ContainerApi.fixtureReleased = Js.Normal c'
    /\ Runtime.calls c' = Runtime.calls ContainerApi.fixtureReleased.
Proof.
  destruct (nothing_happens_after_shutdown
              Runtime.specStartEmits Runtime.specDisposeEmits
              ContainerApi.fixtureReleased
              [Runtime.RegisterController "MockDeviceController" (Some 5);
               Runtime.ManagerEmits Runtime.Starting; Runtime.Shutdown]
              fixtureReleased_reachable eq_refl)
    as (c' & Hrun & Hcalls & _).
  exists c'. split; assumption.
Defined.


Lemma replaced_controller_is_abandoned_witness :
  exists c2,
    Runtime.run Runtime.specDisposeEmits
      [Runtime.ManagerEmits Runtime.Started; Runtime.Shutdown]
      ContainerApi.fixtureReplaced = Js.Normal c2
    /\ Runtime._isShutdown c2 = true
    /\ Runtime.callbacksOf 0 (Runtime.calls c2)
       = [Runtime.OnInit; Runtime.OnContainerResolved;
          Runtime.OnCommunicationManagerStarting].
Proof.
  eexists. split; [reflexivity |]. split; [reflexivity |].
  lazymatch goal with
  | |- Runtime.callbacksOf 0 (Runtime.calls ?c2) = _ =>
      exact (proj1 (proj2 (proj2 (replaced_controller_is_abandoned
                                    Runtime.specStartEmits
                                    Runtime.specDisposeEmits
                                    Runtime.fixtureContainer
                                    ContainerApi.fixtureReplaced c2
                                    "MockObjectController" 0 2 0 7
                                    [Runtime.ManagerEmits Runtime.Started;
                                     Runtime.Shutdown]
                                    fixtureContainer_reachable eq_refl eq_refl
                                    eq_refl eq_refl))))
  end.
Defined.

Lemma resolve_calls_in_order_witness :
  exists c0,
    Runtime.resolve Runtime.specStartEmits
      (Some (Runtime.mkComponents
               (Some [("MockObjectController", Some 0);
                      ("", Some 3);
                      ("MockIoController", None);
                      ("MockOperationsExecutionController", Some 1)])))
      (Some (Runtime.mkConfiguration true)) None = Js.Normal c0
    /\ ContainerApi.mapControllers (fun controllerName _ _ => controllerName)
         c0
       = ["MockObjectController"; "MockOperationsExecutionController"].
Proof.
  destruct (resolve_calls_in_order Runtime.specStartEmits
              [("MockObjectController", Some 0);
               ("", Some 3);
               ("MockIoController", None);
               ("MockOperationsExecutionController", Some 1)] true)
    as (c0 & Hresolve & _ & _ & Hnames & _).
  - simpl. repeat constructor; simpl; intuition discriminate.
  - exists c0. split; assumption.
Defined.

Lemma mapControllers_agrees_with_getController_witness :
  NoDup (ContainerApi.mapControllers (fun controllerName _ _ => controllerName)
           Runtime.fixtureContainer).
Proof.
  exact (proj1 (mapControllers_agrees_with_getController
                  Runtime.specStartEmits Runtime.specDisposeEmits
                  Runtime.fixtureContainer fixtureContainer_reachable)).
Defined.
